(** * Zaim Log: the transaction data pipeline of [app.js]

    A shallow embedding of the CSV import ([parseCSVText], [parseAmount],
    [splitCSVLine]), of the transaction store ([handleEntrySubmit],
    [deleteTransaction]) and of the aggregation code ([renderDashboard],
    [renderCharts], [openDayDetail]), with the properties the specification
    states about them.

    Conventions.
    - A JavaScript string is the list of its UTF-16 code units.
    - A JavaScript number is an IEEE-754 binary64.  Only integer-valued
      numbers, the two infinities and NaN occur in the code embedded here;
      [Fin z] stands for the double of value [z] (the two zeros are
      identified: the code never tells them apart).
    - [undefined] is [None]. *)

From Stdlib Require Import Strings.String Strings.Ascii.
From Stdlib Require Import ZArith NArith List Bool Lia Permutation Sorted.
Import ListNotations.

Set Implicit Arguments.

(* ================================================================= *)
(** ** The JavaScript values and builtins the program uses *)

Module JS.

Definition char := N.
Definition jsstring := list char.

Definition str_eqb (a b : jsstring) : bool :=
  if list_eq_dec N.eq_dec a b then true else false.

(** Code units of an ASCII literal. *)
Fixpoint lit (s : string) : jsstring :=
  match s with
  | EmptyString => []
  | String c s' => N_of_ascii c :: lit s'
  end.

Definition DQUOTE : char := 34%N.
Definition SQUOTE : char := 39%N.
Definition COMMA  : char := 44%N.
Definition HYPHEN : char := 45%N.
Definition PLUS   : char := 43%N.
Definition ZERO   : char := 48%N.
Definition LF     : char := 10%N.
Definition CR     : char := 13%N.
Definition BOM    : char := 65279%N.  (* U+FEFF *)

(** [undefined] or a string, as an array element or an object field. *)
Definition field := option jsstring.

Definition field_eqb (a b : field) : bool :=
  match a, b with
  | None, None => true
  | Some x, Some y => str_eqb x y
  | _, _ => false
  end.

(** ToBoolean of a string-or-undefined. *)
Definition truthy (f : field) : bool :=
  match f with
  | None => false
  | Some [] => false
  | Some _ => true
  end.

(** *** White space *)

(** WhiteSpace and LineTerminator code units, the ones [trim] and the
    numeric conversions skip. *)
Definition is_ws (c : char) : bool :=
  ((c =? 9) || (c =? 10) || (c =? 11) || (c =? 12) || (c =? 13) ||
   (c =? 32) || (c =? 160) || (c =? 5760) ||
   ((8192 <=? c) && (c <=? 8202)) ||
   (c =? 8232) || (c =? 8233) || (c =? 8239) || (c =? 8287) ||
   (c =? 12288) || (c =? 65279))%N.

Fixpoint trimStart (s : jsstring) : jsstring :=
  match s with
  | [] => []
  | c :: s' => if is_ws c then trimStart s' else s
  end.

Definition trimEnd (s : jsstring) : jsstring := rev (trimStart (rev s)).

Definition trim (s : jsstring) : jsstring := trimEnd (trimStart s).

(** *** String methods *)

Fixpoint startsWith (s p : jsstring) : bool :=
  match p, s with
  | [], _ => true
  | _ :: _, [] => false
  | a :: p', b :: s' => (a =? b)%N && startsWith s' p'
  end.

(** [s.padStart(n, '0')]. *)
Definition padStart0 (n : nat) (s : jsstring) : jsstring :=
  repeat ZERO (n - length s) ++ s.

(** [s.split(sep)] for a one-unit separator. *)
Fixpoint split_on (sep : char) (cur : jsstring) (s : jsstring) : list jsstring :=
  match s with
  | [] => [rev cur]
  | c :: s' =>
      if (c =? sep)%N then rev cur :: split_on sep [] s'
      else split_on sep (c :: cur) s'
  end.

Definition split (sep : char) (s : jsstring) : list jsstring := split_on sep [] s.

(** [s.split(/\r?\n/)]: a line ends at LF, and a CR just before that LF
    belongs to the separator. *)
Fixpoint split_lines_from (cur : jsstring) (s : jsstring) : list jsstring :=
  match s with
  | [] => [rev cur]
  | c :: s' =>
      if (c =? LF)%N then rev cur :: split_lines_from [] s'
      else
        match s' with
        | d :: s'' =>
            if ((c =? CR) && (d =? LF))%N
            then rev cur :: split_lines_from [] s''
            else split_lines_from (c :: cur) s'
        | [] => split_lines_from (c :: cur) s'
        end
  end.

Definition split_lines (s : jsstring) : list jsstring := split_lines_from [] s.

(** [text.replace(/^\uFEFF/, '')]. *)
Definition strip_bom (text : jsstring) : jsstring :=
  match text with
  | c :: rest => if (c =? BOM)%N then rest else text
  | [] => []
  end.

(** [s.replace(re, '')] where the global pattern [re] is the class of the
    double quote, the single quote and the comma. *)
Definition strip_quotes_commas (s : jsstring) : jsstring :=
  filter (fun c => negb ((c =? DQUOTE) || (c =? SQUOTE) || (c =? COMMA))%N) s.

Definition is_digit (c : char) : bool := ((48 <=? c) && (c <=? 57))%N.

(** [/^\d{4}$/] *)
Definition four_digits (s : jsstring) : bool :=
  (length s =? 4)%nat && forallb is_digit s.

(** *** Numbers *)

Inductive Number :=
| NaN
| Inf (negative : bool)
| Fin (z : Z).

Definition Number_eq_dec (a b : Number) : {a = b} + {a <> b}.
Proof. decide equality; [apply bool_dec | apply Z.eq_dec]. Defined.

(** The double nearest to an integer (ties to even), infinite from
    [2^1024 - 2^970] on.  Integers below [2^53] in magnitude are doubles. *)
Definition F (z : Z) : Number :=
  let a := Z.abs z in
  if (a <? 2 ^ 53)%Z then Fin z
  else
    let e := (Z.log2 a - 52)%Z in
    let q := Z.shiftr a e in
    let r := Z.land a (Z.ones e) in
    let half := (2 ^ (e - 1))%Z in
    let q' := if ((half <? r) || ((r =? half) && Z.odd q))%Z
              then (q + 1)%Z else q in
    let v := Z.shiftl q' e in
    if (2 ^ 1024 <=? v)%Z then Inf (z <? 0)%Z
    else Fin (Z.sgn z * v).

Definition nneg (a : Number) : Number :=
  match a with
  | NaN => NaN
  | Inf s => Inf (negb s)
  | Fin z => Fin (- z)
  end.

(** [a + b] on numbers. *)
Definition nadd (a b : Number) : Number :=
  match a, b with
  | NaN, _ | _, NaN => NaN
  | Inf s, Inf s' => if Bool.eqb s s' then Inf s else NaN
  | Inf s, Fin _ | Fin _, Inf s => Inf s
  | Fin x, Fin y => F (x + y)
  end.

(** [a - b] *)
Definition nsub (a b : Number) : Number := nadd a (nneg b).

Definition isNaN (a : Number) : bool :=
  match a with NaN => true | _ => false end.

(** [a < 0] and [a > 0]. *)
Definition lt0 (a : Number) : bool :=
  match a with
  | NaN => false
  | Inf s => s
  | Fin z => (z <? 0)%Z
  end.

Definition gt0 (a : Number) : bool :=
  match a with
  | NaN => false
  | Inf s => negb s
  | Fin z => (0 <? z)%Z
  end.

(** [a === b] on numbers: NaN differs from itself. *)
Definition strict_eq (a b : Number) : bool :=
  match a, b with
  | NaN, _ | _, NaN => false
  | Inf s, Inf s' => Bool.eqb s s'
  | Fin x, Fin y => (x =? y)%Z
  | _, _ => false
  end.

(** [a || 0] on numbers: zero and NaN are falsy. *)
Definition or0 (a : Number) : Number :=
  match a with
  | NaN => Fin 0
  | Fin 0 => Fin 0
  | _ => a
  end.

(** *** parseInt(string), radix absent

    White space is skipped, then a sign, then a [0x] or [0X] prefix, which
    makes the radix 16; the digits that follow, as far as they go, give the
    integer, and the result is its double.  No digit gives NaN.  (Past 20
    significant digits ECMAScript lets an implementation round the integer
    first; the engines do not.) *)

Definition digit_val (radix : N) (c : char) : option N :=
  let v :=
    if ((48 <=? c) && (c <=? 57))%N then Some (c - 48)%N
    else if ((97 <=? c) && (c <=? 122))%N then Some (c - 87)%N
    else if ((65 <=? c) && (c <=? 90))%N then Some (c - 55)%N
    else None in
  match v with
  | Some d => if (d <? radix)%N then Some d else None
  | None => None
  end.

(** The longest prefix of digits of the radix, as digit values. *)
Fixpoint leading_digits (radix : N) (s : jsstring) : list N :=
  match s with
  | [] => []
  | c :: s' =>
      match digit_val radix c with
      | Some d => d :: leading_digits radix s'
      | None => []
      end
  end.

Definition digits_value (radix : N) (ds : list N) : Z :=
  fold_left (fun acc d => (acc * Z.of_N radix + Z.of_N d)%Z) ds 0%Z.

Definition strip_sign (s : jsstring) : bool * jsstring :=
  match s with
  | c :: s' =>
      if (c =? HYPHEN)%N then (true, s')
      else if (c =? PLUS)%N then (false, s')
      else (false, s)
  | [] => (false, [])
  end.

Definition strip_hex_prefix (s : jsstring) : N * jsstring :=
  match s with
  | c :: d :: s' =>
      if ((c =? 48) && ((d =? 120) || (d =? 88)))%N then (16%N, s')
      else (10%N, s)
  | _ => (10%N, s)
  end.

Definition parseInt (str : jsstring) : Number :=
  let (negative, s1) := strip_sign (trimStart str) in
  let (radix, s2) := strip_hex_prefix s1 in
  match leading_digits radix s2 with
  | [] => NaN
  | ds =>
      let mathInt := digits_value radix ds in
      F (if negative then - mathInt else mathInt)
  end.

End JS.

Import JS.

(* ================================================================= *)
(** ** Completions: a call returns or throws *)

Inductive Error := TypeError.

Inductive Completion (A : Type) :=
| Normal (a : A)
| Throw (e : Error).

Arguments Normal {A} a.
Arguments Throw {A} e.

(* ================================================================= *)
(** ** The Transaction record *)

Module Tx.

Record Transaction := mk {
  id : jsstring;
  date : jsstring;
  year : option Number;
  month : option Number;
  day : option Number;
  type : field;
  category_med : field;
  category_sml : field;
  detail : field;
  amount : Number;
  value_type : field;
  payee : field;
  method : field
}.

End Tx.

Definition Transaction : Type := Tx.Transaction.

(** The two kinds with a meaning for totals: 収入 and 支出. *)
Definition INCOME : jsstring := [21454; 20837]%N.
Definition EXPENSE : jsstring := [25903; 20986]%N.

(* ================================================================= *)
(** ** CSV loader ([app.js], lines 19-88) *)

Module Csv.

(** *** splitCSVLine *)

Record SplitState := {
  result : list jsstring;
  current : jsstring;
  inQuote : bool
}.

Definition split_init : SplitState :=
  {| result := []; current := []; inQuote := false |}.

(** One turn of the loop over the characters of the line. *)
Definition split_step (st : SplitState) (c : char) : SplitState :=
  if (c =? DQUOTE)%N then
    {| result := result st; current := current st;
       inQuote := negb (inQuote st) |}
  else if (c =? COMMA)%N && negb (inQuote st) then
    {| result := result st ++ [current st]; current := [];
       inQuote := inQuote st |}
  else
    {| result := result st; current := current st ++ [c];
       inQuote := inQuote st |}.

Definition splitCSVLine (line : jsstring) : list jsstring :=
  let st := fold_left split_step line split_init in
  result st ++ [current st].

(** *** parseAmount *)

Definition parseAmount (str : field) : Number :=
  match str with
  | None => Fin 0
  | Some [] => Fin 0
  | Some s =>
      let clean := trim (strip_quotes_commas s) in
      or0 (parseInt clean)
  end.

(** *** parseCSVText *)

(** The body of the loop for one element of [lines].  [crypto.randomUUID()]
    is the stream [uuid]: the record pushed at position [k] of [expenses]
    gets [uuid k]. *)
Definition process_line (uuid : nat -> jsstring)
    (expenses : list Transaction) (raw : jsstring)
  : Completion (list Transaction) :=
  let line := trim raw in
  if negb (truthy (Some line)) then Normal expenses
  else
    let cols := splitCSVLine line in
    match nth_error cols 0 with
    | None => Normal expenses
    | Some c0 =>
        if negb (truthy (Some c0)) || negb (four_digits c0)
        then Normal expenses
        else
          let year := c0 in
          match nth_error cols 1 with
          | None => Throw TypeError
          | Some c1 =>
              let month := padStart0 2 c1 in
              match nth_error cols 2 with
              | None => Throw TypeError
              | Some c2 =>
                  let day := padStart0 2 c2 in
                  let item := {|
                    Tx.id := uuid (length expenses);
                    Tx.date := year ++ [HYPHEN] ++ month ++ [HYPHEN] ++ day;
                    Tx.year := Some (parseInt year);
                    Tx.month := Some (parseInt month);
                    Tx.day := Some (parseInt day);
                    Tx.type := nth_error cols 3;
                    Tx.category_med := nth_error cols 4;
                    Tx.category_sml := nth_error cols 5;
                    Tx.detail := nth_error cols 6;
                    Tx.amount := parseAmount (nth_error cols 7);
                    Tx.value_type := nth_error cols 8;
                    Tx.payee := nth_error cols 9;
                    Tx.method := nth_error cols 10 |} in
                  Normal (expenses ++ [item])
              end
          end
    end.

Fixpoint loop (uuid : nat -> jsstring) (expenses : list Transaction)
    (lines : list jsstring) : Completion (list Transaction) :=
  match lines with
  | [] => Normal expenses
  | raw :: rest =>
      match process_line uuid expenses raw with
      | Normal expenses' => loop uuid expenses' rest
      | Throw e => Throw e
      end
  end.

(** The loop starts at index 1: the header line is never looked at. *)
Definition parseCSVText (uuid : nat -> jsstring) (text : jsstring)
  : Completion (list Transaction) :=
  let content := strip_bom text in
  let lines := split_lines content in
  loop uuid [] (skipn 1 lines).

End Csv.

(* ================================================================= *)
(** ** The store: the global [transactions] array *)

Module Store.

(** The values read from the entry form. *)
Record EntryForm := {
  entry_date : jsstring;
  entry_type : jsstring;
  entry_amount : jsstring;
  entry_category_med : jsstring;
  entry_detail : jsstring;
  entry_method : jsstring;
  entry_value_type : jsstring
}.

(** [handleEntrySubmit]: the new value of [transactions].  [toNumber] is
    the builtin [Number] applied to a string, [uuid] the value of
    [crypto.randomUUID()]. *)
Definition handleEntrySubmit (toNumber : jsstring -> Number)
    (uuid : jsstring) (form : EntryForm) (transactions : list Transaction)
  : list Transaction :=
  let dateVal := entry_date form in
  let amount := parseInt (entry_amount form) in
  if negb (truthy (Some dateVal)) || isNaN amount then transactions
  else
    let parts := map toNumber (split HYPHEN dateVal) in
    let newItem := {|
      Tx.id := uuid;
      Tx.date := dateVal;
      Tx.year := nth_error parts 0;
      Tx.month := nth_error parts 1;
      Tx.day := nth_error parts 2;
      Tx.type := Some (entry_type form);
      Tx.category_med := Some (entry_category_med form);
      Tx.category_sml := Some [];
      Tx.detail := Some (entry_detail form);
      Tx.amount := amount;
      Tx.value_type := Some (entry_value_type form);
      Tx.payee := Some [];
      Tx.method := Some (entry_method form) |} in
    newItem :: transactions.

(** [handleFileSelect] once the text of the file is read: the store is
    replaced when [parseCSVText] returns, and is left alone when it throws
    (the promise of [loadCSV] is then never resolved). *)
Definition handleFileSelect (uuid : nat -> jsstring) (text : jsstring)
    (transactions : list Transaction) : list Transaction :=
  match Csv.parseCSVText uuid text with
  | Normal loadedData => loadedData
  | Throw _ => transactions
  end.

(** [window.deleteTransaction]; [confirmed] is the answer to [confirm]. *)
Definition deleteTransaction (confirmed : bool) (id : jsstring)
    (transactions : list Transaction) : list Transaction :=
  if negb confirmed then transactions
  else filter (fun t => negb (str_eqb (Tx.id t) id)) transactions.

End Store.

(* ================================================================= *)
(** ** Aggregation *)

Module Agg.

Definition type_is (kind : jsstring) (t : Transaction) : bool :=
  field_eqb (Tx.type t) (Some kind).

(** [l.reduce((sum, t) => sum + t.amount, 0)] *)
Definition sum_amount (l : list Transaction) : Number :=
  fold_left (fun sum t => nadd sum (Tx.amount t)) l (Fin 0).

(** *** renderDashboard, steps 3 and 4

    With an empty store the function returns before these steps and shows
    three zeros, which are the totals below as well. *)

Definition currentMonthData (transactions : list Transaction)
    (targetMonth : jsstring) : list Transaction :=
  filter (fun t => startsWith (Tx.date t) targetMonth) transactions.

Record MonthTotals := {
  income : Number;
  expense : Number;
  balance : Number
}.

Definition monthTotals (transactions : list Transaction)
    (targetMonth : jsstring) : MonthTotals :=
  let data := currentMonthData transactions targetMonth in
  let income := sum_amount (filter (type_is INCOME) data) in
  let expense := sum_amount (filter (type_is EXPENSE) data) in
  let balance := nsub income expense in
  {| income := income; expense := expense; balance := balance |}.

(** *** renderCharts: the [totals] object *)

(** The key a field is used as: [undefined] is the key of that name. *)
Definition prop_key (f : field) : jsstring :=
  match f with
  | Some s => s
  | None => lit "undefined"
  end.

(** The members an object literal inherits from [Object.prototype]. *)
Definition objectPrototype_names : list jsstring :=
  map lit ["constructor"; "__defineGetter__"; "__defineSetter__";
           "hasOwnProperty"; "__lookupGetter__"; "__lookupSetter__";
           "isPrototypeOf"; "propertyIsEnumerable"; "toString"; "valueOf";
           "__proto__"; "toLocaleString"]%string.

Definition inherited (k : jsstring) : bool :=
  existsb (str_eqb k) objectPrototype_names.

(** Own properties, in creation order. *)
Definition Totals := list (jsstring * Number).

Fixpoint own_get (o : Totals) (k : jsstring) : option Number :=
  match o with
  | [] => None
  | (k', v) :: o' => if str_eqb k' k then Some v else own_get o' k
  end.

Fixpoint own_set (o : Totals) (k : jsstring) (v : Number) : Totals :=
  match o with
  | [] => [(k, v)]
  | (k', v') :: o' =>
      if str_eqb k' k then (k', v) :: o' else (k', v') :: own_set o' k v
  end.

(** [totals[k] = (totals[k] || 0) + t.amount].  When [k] is not an own
    property and names an inherited member, the read yields a function or
    an object and the sum is a string: the table leaves the numbers, which
    is [None] here. *)
Definition totals_step (totals : Totals) (t : Transaction) : option Totals :=
  let k := prop_key (Tx.category_med t) in
  match own_get totals k with
  | Some v => Some (own_set totals k (nadd (or0 v) (Tx.amount t)))
  | None =>
      if inherited k then None
      else Some (own_set totals k (nadd (Fin 0) (Tx.amount t)))
  end.

Fixpoint totals_forEach (expenses : list Transaction) (totals : Totals)
  : option Totals :=
  match expenses with
  | [] => Some totals
  | t :: rest =>
      match totals_step totals t with
      | Some totals' => totals_forEach rest totals'
      | None => None
      end
  end.

Definition categoryTotals (data : list Transaction) : option Totals :=
  let expenses := filter (type_is EXPENSE) data in
  totals_forEach expenses [].

(** [Object.values(totals)], up to the order of integer-like keys. *)
Definition values (o : Totals) : list Number := map snd o.

(** *** openDayDetail *)

(** The compare function given to [dayData.sort]. *)
Definition dayCompare (a b : Transaction) : Number :=
  if negb (field_eqb (Tx.type a) (Tx.type b)) then
    if field_eqb (Tx.type a) (Some INCOME) then Fin (-1) else Fin 1
  else nsub (Tx.amount b) (Tx.amount a).

(** The relations a compare function induces. *)
Definition ltCF {A} (cmp : A -> A -> Number) (a b : A) : Prop :=
  lt0 (cmp a b) = true.
Definition gtCF {A} (cmp : A -> A -> Number) (a b : A) : Prop :=
  gt0 (cmp a b) = true.
Definition eqCF {A} (cmp : A -> A -> Number) (a b : A) : Prop :=
  lt0 (cmp a b) = false /\ gt0 (cmp a b) = false.

(** A consistent comparator for the elements of [l] (ECMAScript,
    Array.prototype.sort): outside of these the order [sort] produces is
    left to the implementation. *)
Record Consistent {A} (cmp : A -> A -> Number) (l : list A) : Prop := {
  cf_refl : forall a, In a l -> eqCF cmp a a;
  cf_sym : forall a b, In a l -> In b l -> eqCF cmp a b -> eqCF cmp b a;
  cf_eq_trans : forall a b c, In a l -> In b l -> In c l ->
      eqCF cmp a b -> eqCF cmp b c -> eqCF cmp a c;
  cf_lt_trans : forall a b c, In a l -> In b l -> In c l ->
      ltCF cmp a b -> ltCF cmp b c -> ltCF cmp a c;
  cf_gt_trans : forall a b c, In a l -> In b l -> In c l ->
      gtCF cmp a b -> gtCF cmp b c -> gtCF cmp a c
}.

(** The stable sort: the order every conforming [sort] produces for a
    consistent comparator. *)
Fixpoint stable_insert {A} (cmp : A -> A -> Number) (x : A) (l : list A)
  : list A :=
  match l with
  | [] => [x]
  | y :: l' =>
      if gt0 (cmp x y) then y :: stable_insert cmp x l' else x :: l
  end.

Fixpoint stable_sort {A} (cmp : A -> A -> Number) (l : list A) : list A :=
  match l with
  | [] => []
  | x :: l' => stable_insert cmp x (stable_sort cmp l')
  end.

(** What is known of an implementation of [Array.prototype.sort]. *)
Record SortImpl (sort : forall A, (A -> A -> Number) -> list A -> list A)
  : Prop := {
  sort_perm : forall A (cmp : A -> A -> Number) l,
      Permutation l (sort A cmp l);
  sort_consistent : forall A (cmp : A -> A -> Number) l,
      Consistent cmp l -> sort A cmp l = stable_sort cmp l
}.

(** ToString of an integer (below [10^21] in magnitude). *)
Fixpoint uint_chars (d : Decimal.uint) : jsstring :=
  match d with
  | Decimal.Nil => []
  | Decimal.D0 d' => 48%N :: uint_chars d'
  | Decimal.D1 d' => 49%N :: uint_chars d'
  | Decimal.D2 d' => 50%N :: uint_chars d'
  | Decimal.D3 d' => 51%N :: uint_chars d'
  | Decimal.D4 d' => 52%N :: uint_chars d'
  | Decimal.D5 d' => 53%N :: uint_chars d'
  | Decimal.D6 d' => 54%N :: uint_chars d'
  | Decimal.D7 d' => 55%N :: uint_chars d'
  | Decimal.D8 d' => 56%N :: uint_chars d'
  | Decimal.D9 d' => 57%N :: uint_chars d'
  end.

Definition toString (z : Z) : jsstring :=
  match Z.to_int z with
  | Decimal.Pos d => uint_chars d
  | Decimal.Neg d => HYPHEN :: uint_chars d
  end.

(** The date string of a calendar cell; [month] counts from 0. *)
Definition dateStr (year month day : Z) : jsstring :=
  toString year ++ [HYPHEN] ++ padStart0 2 (toString (month + 1))
    ++ [HYPHEN] ++ padStart0 2 (toString day).

(** The sorted [dayData] of [openDayDetail]. *)
Definition dayData (sort : forall A, (A -> A -> Number) -> list A -> list A)
    (transactions : list Transaction) (dateStr : jsstring)
  : list Transaction :=
  sort _ dayCompare
    (filter (fun t => str_eqb (Tx.date t) dateStr) transactions).

Definition openDayDetail
    (sort : forall A, (A -> A -> Number) -> list A -> list A)
    (transactions : list Transaction) (year month day : Z)
  : list Transaction :=
  dayData sort transactions (dateStr year month day).

End Agg.

(* ================================================================= *)
(** ** Markup: [escapeHTML] ([app.js], lines 460-472) *)

Module Html.

Definition AMP : char := 38%N.
Definition LT : char := 60%N.
Definition GT : char := 62%N.

(** The table [escape] of the replacement function. *)
Definition entity (c : char) : option jsstring :=
  if (c =? AMP)%N then Some (lit "&amp;")
  else if (c =? LT)%N then Some (lit "&lt;")
  else if (c =? GT)%N then Some (lit "&gt;")
  else if (c =? DQUOTE)%N then Some (lit "&quot;")
  else if (c =? SQUOTE)%N then Some (lit "&#39;")
  else None.

(** [str.replace(re, fn)] for the global pattern of the five characters:
    each of them is replaced by its entity, the rest is kept. *)
Definition replace_special (s : jsstring) : jsstring :=
  flat_map (fun c => match entity c with Some e => e | None => [c] end) s.

(** What is not a string is returned as it is. *)
Definition escapeHTML (str : field) : field :=
  match str with
  | None => None
  | Some s => Some (replace_special s)
  end.

End Html.

(* ================================================================= *)
(** ** Lists by date ([app.js], lines 292-321, 379-383, 420-425) *)

Module View.

(** [new Date(b.date) - new Date(a.date)].  [timeValue] is the time value
    of [new Date(s)], NaN for what is not a date. *)
Definition dateCompare (timeValue : jsstring -> Number) (a b : Transaction)
  : Number :=
  nsub (timeValue (Tx.date b)) (timeValue (Tx.date a)).

(** [getLatestMonth].  Reading [sorted[0].date] throws when [sorted] is
    empty. *)
Definition getLatestMonth
    (sort : forall A, (A -> A -> Number) -> list A -> list A)
    (timeValue : jsstring -> Number) (data : list Transaction)
  : Completion jsstring :=
  match data with
  | [] => Normal []
  | _ :: _ =>
      match sort _ (dateCompare timeValue) data with
      | [] => Throw TypeError
      | first :: _ => Normal (firstn 7 (Tx.date first))
      end
  end.

(** [s.includes(sub)] *)
Fixpoint includes (s sub : jsstring) : bool :=
  startsWith s sub ||
  match s with
  | [] => false
  | _ :: s' => includes s' sub
  end.

(** [f || ''] *)
Definition or_empty (f : field) : jsstring :=
  match f with
  | Some s => s
  | None => []
  end.

(** The values of the three filter controls. *)
Record Filters := {
  type_filter : jsstring;
  search_input : jsstring;
  month_picker : jsstring
}.

Definition ALL : jsstring := lit "all".

(** The predicate of the [filter] call in [filterTransactions];
    [toLowerCase] is the builtin of that name. *)
Definition matches (toLowerCase : jsstring -> jsstring) (f : Filters)
    (t : Transaction) : bool :=
  let type := type_filter f in
  let search := toLowerCase (search_input f) in
  let monthPicker := month_picker f in
  let matchType :=
    str_eqb type ALL ||
    (str_eqb type EXPENSE && Agg.type_is EXPENSE t) ||
    (str_eqb type INCOME && Agg.type_is INCOME t) in
  let matchSearch :=
    includes (toLowerCase (or_empty (Tx.detail t))) search ||
    includes (toLowerCase (or_empty (Tx.category_med t))) search ||
    includes (toLowerCase (or_empty (Tx.payee t))) search in
  let matchMonth :=
    if truthy (Some monthPicker) then startsWith (Tx.date t) monthPicker
    else true in
  matchType && matchSearch && matchMonth.

(** The new value of [filteredTransactions]. *)
Definition filterTransactions
    (sort : forall A, (A -> A -> Number) -> list A -> list A)
    (timeValue : jsstring -> Number) (toLowerCase : jsstring -> jsstring)
    (f : Filters) (transactions : list Transaction) : list Transaction :=
  sort _ (dateCompare timeValue) (filter (matches toLowerCase f) transactions).

(** The rows of [renderTransactionsTable]. *)
Definition displayList (filteredTransactions : list Transaction)
  : list Transaction :=
  firstn 50 filteredTransactions.

(** The entries of [renderRecentTransactionsList]. *)
Definition recentList
    (sort : forall A, (A -> A -> Number) -> list A -> list A)
    (timeValue : jsstring -> Number) (data : list Transaction)
  : list Transaction :=
  firstn 5 (sort _ (dateCompare timeValue) data).

End View.

(* ================================================================= *)
(** ** Calendar: the [dailyData] object of [renderCalendar] *)

Module Calendar.

Record DayTotals := {
  income : Number;
  expense : Number
}.

(** The keys are the [day] fields.  As property keys they are the strings
    of these numbers (or [undefined], [NaN]), different for different
    values and never the name of an inherited member. *)
Definition Daily := list (option Number * DayTotals).

Definition key_eqb (a b : option Number) : bool :=
  match a, b with
  | None, None => true
  | Some x, Some y => if Number_eq_dec x y then true else false
  | _, _ => false
  end.

Fixpoint get (o : Daily) (d : option Number) : option DayTotals :=
  match o with
  | [] => None
  | (d', v) :: o' => if key_eqb d' d then Some v else get o' d
  end.

(** The entry of [d] changed by [f]. *)
Fixpoint update (o : Daily) (d : option Number) (f : DayTotals -> DayTotals)
  : Daily :=
  match o with
  | [] => []
  | (d', v) :: o' =>
      if key_eqb d' d then (d', f v) :: o' else (d', v) :: update o' d f
  end.

(** The body of [monthData.forEach]. *)
Definition step (dailyData : Daily) (t : Transaction) : Daily :=
  let d := Tx.day t in
  let dailyData :=
    match get dailyData d with
    | Some _ => dailyData
    | None => dailyData ++ [(d, {| income := Fin 0; expense := Fin 0 |})]
    end in
  if Agg.type_is INCOME t then
    update dailyData d (fun v =>
      {| income := nadd (income v) (Tx.amount t); expense := expense v |})
  else if Agg.type_is EXPENSE t then
    update dailyData d (fun v =>
      {| income := income v; expense := nadd (expense v) (Tx.amount t) |})
  else dailyData.

Definition monthStr (year month : Z) : jsstring :=
  Agg.toString year ++ [HYPHEN] ++ padStart0 2 (Agg.toString (month + 1)).

Definition dailyData (transactions : list Transaction) (year month : Z)
  : Daily :=
  let monthData :=
    filter (fun t => startsWith (Tx.date t) (monthStr year month))
      transactions in
  fold_left step monthData [].

(** The two totals a cell of the grid shows: each only when positive. *)
Definition cellTotals (dailyData : Daily) (day : Z)
  : option Number * option Number :=
  match get dailyData (Some (Fin day)) with
  | Some data =>
      (if gt0 (income data) then Some (income data) else None,
       if gt0 (expense data) then Some (expense data) else None)
  | None => (None, None)
  end.

End Calendar.

(* ================================================================= *)
(** ** The PIN lock ([initLockSystem] and what follows) *)

Module Lock.

(** [lockScreen.style.display]: not set, ['flex'] or ['none']. *)
Inductive Display := Unset | Flex | Hidden.

(** The three variables of the script, the stored PIN
    ([localStorage], key [zaim_pin]) and the lock screen. *)
Record State := mk {
  pinCode : jsstring;
  isSettingUp : bool;
  tempPin : jsstring;
  zaim_pin : field;
  display : Display
}.

Definition resetPinState (s : State) : State :=
  mk [] (isSettingUp s) (tempPin s) (zaim_pin s) (display s).

(** After the digit that makes the code four long, [handlePinComplete]
    is set to run 100 ms later. *)
Definition addPinDigit (digit : jsstring) (s : State) : State :=
  if 4 <=? length (pinCode s) then s
  else mk (pinCode s ++ digit) (isSettingUp s) (tempPin s) (zaim_pin s)
          (display s).

(** [pinCode.slice(0, -1)] *)
Definition removePinDigit (s : State) : State :=
  if 0 <? length (pinCode s)
  then mk (removelast (pinCode s)) (isSettingUp s) (tempPin s) (zaim_pin s)
          (display s)
  else s.

Definition startPinSetup (s : State) : State :=
  mk [] true [] (zaim_pin s) Flex.

(** [showError] marks the dots and sets [resetPinState] to run 400 ms
    later; nothing of the state changes at once. *)
Definition handlePinComplete (s : State) : State :=
  if isSettingUp s then
    if negb (truthy (Some (tempPin s))) then
      mk [] (isSettingUp s) (pinCode s) (zaim_pin s) (display s)
    else if str_eqb (pinCode s) (tempPin s) then
      mk (pinCode s) false [] (Some (pinCode s)) Hidden
    else
      mk (pinCode s) (isSettingUp s) [] (zaim_pin s) (display s)
  else
    if field_eqb (Some (pinCode s)) (zaim_pin s) then
      mk (pinCode s) (isSettingUp s) (tempPin s) (zaim_pin s) Hidden
    else s.

(** The click on the lock button. *)
Definition lockButton (s : State) : State :=
  if truthy (zaim_pin s) then
    mk [] (isSettingUp s) (tempPin s) (zaim_pin s) Flex
  else startPinSetup s.

(** [a <= b] on strings: by code units, a prefix first. *)
Fixpoint str_leb (a b : jsstring) : bool :=
  match a, b with
  | [], _ => true
  | _ :: _, [] => false
  | x :: a', y :: b' =>
      if (x <? y)%N then true
      else if (x =? y)%N then str_leb a' b'
      else false
  end.

(** The [keydown] listener. *)
Definition keyDown (key : jsstring) (s : State) : State :=
  match display s with
  | Hidden => s
  | _ =>
      let s1 :=
        if str_leb (lit "0") key && str_leb key (lit "9")
        then addPinDigit key s else s in
      if str_eqb key (lit "Backspace") then removePinDigit s1 else s1
  end.

(** What can happen: a click on a key of the pad ([num] is its
    [data-num]), on the delete key, a key of the keyboard, the lock
    button, and the two timers.  The timers are taken to fire at any time:
    every run of the page is a sequence of these events. *)
Inductive Event :=
| KeyClick (num : field)
| DeleteClick
| KeyDown (key : jsstring)
| LockButton
| PinTimer
| ErrorTimer.

Definition step (s : State) (e : Event) : State :=
  match e with
  | KeyClick (Some num) => addPinDigit num s
  | KeyClick None => s
  | DeleteClick => removePinDigit s
  | KeyDown key => keyDown key s
  | LockButton => lockButton s
  | PinTimer => handlePinComplete s
  | ErrorTimer => resetPinState s
  end.

Definition run (s : State) (es : list Event) : State := fold_left step es s.

(** The state [initLockSystem] leaves: locked when a PIN is stored. *)
Definition init (savedPin : field) : State :=
  mk [] false [] savedPin (if truthy savedPin then Flex else Unset).

End Lock.

(* ================================================================= *)
(** ** Notions used to state the properties *)

Module Spec.

(** *** Tokenizer *)

(** Position [i] of [line] holds a comma outside quoted regions: an even
    number of quote characters stands before it. *)
Definition is_separator (line : jsstring) (i : nat) : bool :=
  (nth i line 0 =? COMMA)%N &&
  Nat.even (count_occ N.eq_dec (firstn i line) DQUOTE).

Definition separators (line : jsstring) : list nat :=
  filter (is_separator line) (seq 0 (length line)).

(** The pieces of [line] between the given positions, from [start] on. *)
Fixpoint cut_at (seps : list nat) (start : nat) (line : jsstring)
  : list jsstring :=
  match seps with
  | [] => [skipn start line]
  | p :: seps' =>
      firstn (p - start) (skipn start line) :: cut_at seps' (S p) line
  end.

Definition unquote (s : jsstring) : jsstring :=
  filter (fun c => negb (c =? DQUOTE)%N) s.

(** [l] with [c] added at the end of its last element. *)
Definition snoc_last (l : list jsstring) (c : char) : list jsstring :=
  removelast l ++ [last l [] ++ [c]].

(** The line of the specification's example: a, quote, b,c, quote, ,d *)
Definition example_line : jsstring :=
  lit "a," ++ [DQUOTE] ++ lit "b,c" ++ [DQUOTE] ++ lit ",d".

(** *** Import *)

(** The fields of a line of the file. *)
Definition fields_of (raw : jsstring) : list jsstring :=
  Csv.splitCSVLine (trim raw).

(** A data line: not empty once trimmed, and its first field is four
    digits. *)
Definition data_line (raw : jsstring) : bool :=
  truthy (Some (trim raw)) && four_digits (hd [] (fields_of raw)).

(** The data lines of a text, in their order; the first line is the
    header. *)
Definition data_lines (text : jsstring) : list jsstring :=
  filter data_line (skipn 1 (split_lines (strip_bom text))).

(** A line the import can take: month and day fields are there. *)
Definition wide (raw : jsstring) : bool := 3 <=? length (fields_of raw).

(** The date the import composes for a line. *)
Definition line_date (raw : jsstring) : jsstring :=
  let cols := fields_of raw in
  nth 0 cols [] ++ [HYPHEN] ++ padStart0 2 (nth 1 cols []) ++ [HYPHEN]
    ++ padStart0 2 (nth 2 cols []).

(** The record of a data line. *)
Definition item_of (id : jsstring) (raw : jsstring) : Transaction :=
  let cols := fields_of raw in
  {| Tx.id := id;
     Tx.date := line_date raw;
     Tx.year := Some (parseInt (nth 0 cols []));
     Tx.month := Some (parseInt (padStart0 2 (nth 1 cols [])));
     Tx.day := Some (parseInt (padStart0 2 (nth 2 cols [])));
     Tx.type := nth_error cols 3;
     Tx.category_med := nth_error cols 4;
     Tx.category_sml := nth_error cols 5;
     Tx.detail := nth_error cols 6;
     Tx.amount := Csv.parseAmount (nth_error cols 7);
     Tx.value_type := nth_error cols 8;
     Tx.payee := nth_error cols 9;
     Tx.method := nth_error cols 10 |}.

(** One record per line, with the ids [uuid k], [uuid (k+1)], ... *)
Fixpoint emit_from (uuid : nat -> jsstring) (k : nat) (lines : list jsstring)
  : list Transaction :=
  match lines with
  | [] => []
  | raw :: rest => item_of (uuid k) raw :: emit_from uuid (S k) rest
  end.

(** An id stream for the examples. *)
Definition uuid0 (k : nat) : jsstring := lit "id-" ++ Agg.toString (Z.of_nat k).

(** *** Dates *)

(** The value of a string of decimal digits. *)
Definition decimal (s : jsstring) : Z :=
  digits_value 10 (map (fun c => (c - 48)%N) s).

(** A syntactically valid YYYY-MM-DD string. *)
Definition valid_date (s : jsstring) : bool :=
  (length s =? 10) &&
  forallb is_digit (firstn 4 s) && (nth 4 s 0 =? HYPHEN)%N &&
  forallb is_digit (firstn 2 (skipn 5 s)) && (nth 7 s 0 =? HYPHEN)%N &&
  forallb is_digit (skipn 8 s).

(** The year, month and day fields are the components of the date. *)
Definition fields_match_date (t : Transaction) : Prop :=
  Tx.year t = Some (Fin (decimal (firstn 4 (Tx.date t)))) /\
  Tx.month t = Some (Fin (decimal (firstn 2 (skipn 5 (Tx.date t))))) /\
  Tx.day t = Some (Fin (decimal (skipn 8 (Tx.date t)))).

(** At most two characters, all digits. *)
Definition short_digits (s : jsstring) : bool :=
  (length s <=? 2) && forallb is_digit s.

(** *** Store *)

(** [l1] is [l2] with some elements left out: same elements, same order. *)
Inductive Subseq {A : Type} : list A -> list A -> Prop :=
| Subseq_nil : Subseq [] []
| Subseq_skip x l1 l2 : Subseq l1 l2 -> Subseq l1 (x :: l2)
| Subseq_keep x l1 l2 : Subseq l1 l2 -> Subseq (x :: l1) (x :: l2).

(** A record as the import makes it, for examples. *)
Definition sample (id : string) (year month day : Z) (kind : jsstring)
    (category : string) (amount : Z) : Transaction :=
  {| Tx.id := lit id;
     Tx.date := Agg.dateStr year (month - 1) day;
     Tx.year := Some (Fin year);
     Tx.month := Some (Fin month);
     Tx.day := Some (Fin day);
     Tx.type := Some kind;
     Tx.category_med := Some (lit category);
     Tx.category_sml := Some [];
     Tx.detail := Some [];
     Tx.amount := Fin amount;
     Tx.value_type := Some [];
     Tx.payee := Some [];
     Tx.method := Some [] |}.

Definition lunch : Transaction := sample "t1" 2025 3 15 EXPENSE "food" 1200.
Definition salary : Transaction := sample "t2" 2025 3 16 INCOME "pay" 300000.
Definition train : Transaction := sample "t3" 2025 3 15 EXPENSE "travel" 480.

(** *** Totals *)

(** [0 <= a], false for NaN. *)
Definition ge0 (a : Number) : bool :=
  match a with
  | NaN => false
  | Inf s => negb s
  | Fin z => (0 <=? z)%Z
  end.

Definition is_fin (a : Number) : bool :=
  match a with Fin _ => true | _ => false end.

(** The size of a number, with [2^53] for what is not finite: a list of
    total size below [2^53] is a list of integers that add up exactly. *)
Definition magnitude (a : Number) : Z :=
  match a with
  | Fin z => Z.abs z
  | _ => 2 ^ 53
  end.

Definition total_magnitude (l : list Number) : Z :=
  fold_right (fun a acc => (magnitude a + acc)%Z) 0%Z l.

(** The integer a finite number stands for, and the exact sum of a list. *)
Definition zval (a : Number) : Z :=
  match a with
  | Fin z => z
  | _ => 0%Z
  end.

Definition zsum (l : list Number) : Z :=
  fold_right (fun a acc => (zval a + acc)%Z) 0%Z l.

(** [vs.reduce((s, v) => s + v, 0)], the sum of the values of a table. *)
Definition sum_values (vs : list Number) : Number :=
  fold_left nadd vs (Fin 0).

Definition has_key (k : jsstring) (t : Transaction) : bool :=
  str_eqb (Agg.prop_key (Tx.category_med t)) k.

(** The value of key [k] once the records [rest] are added to a table
    where it had the value [before], in exact arithmetic. *)
Definition group_after (before : option Number) (k : jsstring)
    (rest : list Transaction) : option Number :=
  let add := zsum (map Tx.amount (filter (has_key k) rest)) in
  match before with
  | Some v => Some (Fin (zval v + add)%Z)
  | None => if existsb (has_key k) rest then Some (Fin add) else None
  end.

(** *** Day lists *)

(** A third kind, a transfer: 振替. *)
Definition TRANSFER : jsstring := [25391; 26367]%N.

Definition cheap : Transaction := sample "d1" 2025 3 15 EXPENSE "food" 100.
Definition transfer : Transaction := sample "d2" 2025 3 15 TRANSFER "bank" 5.
Definition dear : Transaction := sample "d3" 2025 3 15 EXPENSE "food" 200.

(** [a <= b] on numbers that are not NaN. *)
Definition nleb (a b : Number) : bool :=
  match a, b with
  | Inf true, _ => true
  | _, Inf false => true
  | Fin x, Fin y => (x <=? y)%Z
  | _, _ => false
  end.

(** The order of the day list: [a] may stand before [b] when [a] is an
    income and [b] is not, or when both are of one kind and the amount of
    [a] is not the smaller one. *)
Definition day_leq (a b : Transaction) : bool :=
  match Agg.type_is INCOME a, Agg.type_is INCOME b with
  | true, false => true
  | false, true => false
  | _, _ => nleb (Tx.amount b) (Tx.amount a)
  end.

(** The records the order of the day list is meant for. *)
Definition two_kinds (t : Transaction) : bool :=
  (Agg.type_is INCOME t || Agg.type_is EXPENSE t) &&
  negb (isNaN (Tx.amount t)).

(** An implementation of [sort] that, as TimSort does, first looks whether
    the array is one ascending run, no element comparing below its left
    neighbour, and then leaves it as it is. *)
Fixpoint is_run {A} (cmp : A -> A -> Number) (l : list A) : bool :=
  match l with
  | a :: l' =>
      match l' with
      | b :: _ => negb (lt0 (cmp b a)) && is_run cmp l'
      | [] => true
      end
  | [] => true
  end.

Definition run_sort (A : Type) (cmp : A -> A -> Number) (l : list A)
  : list A :=
  if is_run cmp l then l else Agg.stable_sort cmp l.

End Spec.

(* ================================================================= *)
(** ** Further notions *)

Module Notions.

(** *** Rows of a CSV file *)

(** The fields with [sep] between them. *)
Fixpoint join (sep : char) (l : list jsstring) : jsstring :=
  match l with
  | [] => []
  | x :: l' =>
      match l' with
      | [] => x
      | _ :: _ => x ++ sep :: join sep l'
      end
  end.

Definition has_char (c : char) (s : jsstring) : bool :=
  existsb (fun x => (x =? c)%N) s.

(** A field as a CSV writer puts it: in quotes when it holds a comma. *)
Definition encode_field (f : jsstring) : jsstring :=
  if has_char COMMA f then DQUOTE :: f ++ [DQUOTE] else f.

(** The text with every LF made a CR LF. *)
Definition to_crlf (text : jsstring) : jsstring :=
  flat_map (fun c => if (c =? LF)%N then [CR; LF] else [c]) text.

(** Digits with grouping commas and quotes around or between them. *)
Definition grouped_digit (c : char) : bool :=
  is_digit c || (c =? COMMA)%N || (c =? DQUOTE)%N || (c =? SQUOTE)%N.

(** *** Markup *)

Definition special (c : char) : bool :=
  match Html.entity c with Some _ => true | None => false end.

(** The text a browser reads from escaped markup: the five entities
    decoded, [n] bounding the number of steps. *)
Fixpoint decode (n : nat) (s : jsstring) : jsstring :=
  match n with
  | O => s
  | S n' =>
      match s with
      | [] => []
      | c :: s' =>
          if startsWith s (lit "&amp;") then Html.AMP :: decode n' (skipn 5 s)
          else if startsWith s (lit "&lt;") then Html.LT :: decode n' (skipn 4 s)
          else if startsWith s (lit "&gt;") then Html.GT :: decode n' (skipn 4 s)
          else if startsWith s (lit "&quot;")
            then DQUOTE :: decode n' (skipn 6 s)
          else if startsWith s (lit "&#39;")
            then SQUOTE :: decode n' (skipn 5 s)
          else c :: decode n' s'
      end
  end.

Definition unescape (s : jsstring) : jsstring := decode (length s) s.

(** *** Dates *)

(** [a] is not older than [b]. *)
Definition newer (timeValue : jsstring -> Number) (a b : Transaction)
  : bool :=
  Spec.nleb (timeValue (Tx.date b)) (timeValue (Tx.date a)).

Definition dated (timeValue : jsstring -> Number) (t : Transaction) : Prop :=
  isNaN (timeValue (Tx.date t)) = false.

(** A clock for the examples: the digits of the date read as one number. *)
Definition digits_clock (s : jsstring) : Number :=
  if Spec.valid_date s then Fin (Spec.decimal (filter is_digit s)) else NaN.

(** The stable sort as an implementation of [sort]. *)
Definition sorter : forall A, (A -> A -> Number) -> list A -> list A :=
  fun A => @Agg.stable_sort A.

(** *** The calendar *)

Definition incomes (o : Calendar.Daily) : list Number :=
  map (fun e => Calendar.income (snd e)) o.

Definition expenses (o : Calendar.Daily) : list Number :=
  map (fun e => Calendar.expense (snd e)) o.

Definition day_is (d : option Number) (t : Transaction) : bool :=
  Calendar.key_eqb (Tx.day t) d.

Definition no_totals : Calendar.DayTotals :=
  {| Calendar.income := Fin 0; Calendar.expense := Fin 0 |}.

(** The totals [v] of a day with the record [t] counted in, in exact
    arithmetic. *)
Definition add_to (v : Calendar.DayTotals) (t : Transaction)
  : Calendar.DayTotals :=
  if Agg.type_is INCOME t then
    {| Calendar.income :=
         Fin (Spec.zval (Calendar.income v) + Spec.zval (Tx.amount t));
       Calendar.expense := Calendar.expense v |}
  else if Agg.type_is EXPENSE t then
    {| Calendar.income := Calendar.income v;
       Calendar.expense :=
         Fin (Spec.zval (Calendar.expense v) + Spec.zval (Tx.amount t)) |}
  else v.

(** The entry of day [d] after the record [t]. *)
Definition bump (d : option Number) (before : option Calendar.DayTotals)
    (t : Transaction) : option Calendar.DayTotals :=
  if day_is d t then
    Some (add_to (match before with Some v => v | None => no_totals end) t)
  else before.

(** *** The lock *)

(** The digit keys give one character each. *)
Definition one_char (e : Lock.Event) : Prop :=
  match e with
  | Lock.KeyClick (Some num) => length num = 1
  | Lock.KeyDown key =>
      Lock.str_leb (lit "0") key && Lock.str_leb key (lit "9") = true ->
      length key = 1
  | _ => True
  end.

(** Four digits typed on the pad, and on the keyboard. *)
Definition pad_1234 : list Lock.Event :=
  map (fun d => Lock.KeyClick (Some (lit d))) ["1"; "2"; "3"; "4"]%string.

Definition keys_1234 : list Lock.Event :=
  map (fun d => Lock.KeyDown (lit d)) ["1"; "2"; "3"; "4"]%string.

End Notions.

(* ================================================================= *)
(** * Properties *)

(** ** The tokenizer *)

Section Tokenizer.

Import Csv Spec.

Lemma is_separator_app line c i :
  i < length line -> is_separator (line ++ [c]) i = is_separator line i.
Proof.
  intros Hi. unfold is_separator.
  rewrite app_nth1 by exact Hi.
  rewrite firstn_app.
  replace (i - length line) with 0 by lia.
  simpl. rewrite app_nil_r. reflexivity.
Qed.

Lemma is_separator_end line c :
  is_separator (line ++ [c]) (length line) =
  (c =? COMMA)%N && Nat.even (count_occ N.eq_dec line DQUOTE).
Proof.
  unfold is_separator.
  rewrite app_nth2 by lia. rewrite Nat.sub_diag. simpl.
  rewrite firstn_app, Nat.sub_diag, firstn_all. simpl.
  rewrite app_nil_r. reflexivity.
Qed.

Lemma separators_snoc line c :
  separators (line ++ [c]) =
  separators line ++
    (if is_separator (line ++ [c]) (length line) then [length line] else []).
Proof.
  unfold separators.
  rewrite length_app. simpl. rewrite Nat.add_1_r, seq_S, filter_app. simpl.
  f_equal.
  apply filter_ext_in. intros i Hi. apply in_seq in Hi.
  apply is_separator_app. lia.
Qed.

Lemma separators_bound line :
  Forall (fun p => p < length line) (separators line).
Proof.
  apply Forall_forall. intros p Hp. unfold separators in Hp.
  apply filter_In in Hp. destruct Hp as [Hp _]. apply in_seq in Hp. lia.
Qed.

Lemma cut_at_nonempty seps start line : cut_at seps start line <> [].
Proof. destruct seps; discriminate. Qed.

(** A character added after the last separator goes to the last piece. *)
Lemma cut_at_snoc_char seps : forall start line c,
  start <= length line ->
  Forall (fun p => p < length line) seps ->
  cut_at seps start (line ++ [c]) = snoc_last (cut_at seps start line) c.
Proof.
  induction seps as [|p seps IH]; intros start line c Hs Hb; simpl.
  - unfold snoc_last. simpl. rewrite skipn_app.
    replace (start - length line) with 0 by lia. reflexivity.
  - inversion Hb as [|? ? Hp Hb']; subst.
    rewrite IH by (auto; lia).
    unfold snoc_last.
    pose proof (cut_at_nonempty seps (S p) line) as Hne.
    destruct (cut_at seps (S p) line) as [|x xs] eqn:E; [congruence|].
    cbn [removelast last app].
    rewrite skipn_app. replace (start - length line) with 0 by lia.
    cbn [skipn]. rewrite firstn_app.
    replace (p - start - length (skipn start line)) with 0
      by (rewrite length_skipn; lia).
    simpl. rewrite app_nil_r. reflexivity.
Qed.

(** A separator added at the end opens a new, empty piece. *)
Lemma cut_at_snoc_sep seps : forall start line c,
  start <= length line ->
  Forall (fun p => p < length line) seps ->
  cut_at (seps ++ [length line]) start (line ++ [c]) =
  cut_at seps start line ++ [[]].
Proof.
  induction seps as [|p seps IH]; intros start line c Hs Hb;
    cbn [cut_at app].
  - rewrite (skipn_all2 (n := S (length line)) (line ++ [c]))
      by (rewrite length_app; simpl; lia).
    rewrite skipn_app. replace (start - length line) with 0 by lia.
    cbn [skipn]. rewrite firstn_app.
    replace (length line - start - length (skipn start line)) with 0
      by (rewrite length_skipn; lia).
    cbn [firstn]. rewrite app_nil_r.
    rewrite firstn_all2 by (rewrite length_skipn; lia).
    reflexivity.
  - inversion Hb as [|? ? Hp Hb']; subst.
    rewrite IH by (auto; lia).
    rewrite skipn_app. replace (start - length line) with 0 by lia.
    cbn [skipn]. rewrite firstn_app.
    replace (p - start - length (skipn start line)) with 0
      by (rewrite length_skipn; lia).
    cbn [firstn]. rewrite app_nil_r. reflexivity.
Qed.

Lemma unquote_app a b : unquote (a ++ b) = unquote a ++ unquote b.
Proof. apply filter_app. Qed.

Lemma map_unquote_snoc_last l c :
  l <> [] ->
  map unquote (snoc_last l c) =
  removelast (map unquote l) ++ [last (map unquote l) [] ++ unquote [c]].
Proof.
  intros Hl. unfold snoc_last.
  destruct (exists_last Hl) as [l' [x ->]].
  rewrite removelast_last, last_last, !map_app. simpl.
  rewrite removelast_last, last_last, unquote_app. reflexivity.
Qed.

(** The state of the loop after the characters of [line]. *)
Lemma split_state_spec line :
  let st := fold_left split_step line split_init in
  inQuote st = Nat.odd (count_occ N.eq_dec line DQUOTE) /\
  result st ++ [current st] = map unquote (cut_at (separators line) 0 line).
Proof.
  induction line as [|c line IH] using rev_ind; [split; reflexivity|].
  cbv zeta in *. rewrite fold_left_app. simpl.
  destruct IH as [IHq IHr].
  set (st := fold_left split_step line split_init) in *.
  rewrite separators_snoc, is_separator_end.
  rewrite count_occ_app. simpl.
  unfold split_step.
  destruct (N.eqb_spec c DQUOTE) as [->|Hq].
  - (* a quote flips the mode and is dropped *)
    cbn [inQuote result current andb].
    destruct (N.eq_dec DQUOTE DQUOTE) as [_|]; [|congruence].
    split.
    + rewrite IHq, Nat.add_1_r, Nat.odd_succ, <- Nat.negb_odd. reflexivity.
    + rewrite app_nil_r, cut_at_snoc_char
        by (auto using separators_bound; lia).
      rewrite map_unquote_snoc_last by apply cut_at_nonempty.
      rewrite <- IHr, removelast_last, last_last. simpl.
      rewrite app_nil_r. reflexivity.
  - destruct (N.eq_dec c DQUOTE) as [|_]; [congruence|].
    rewrite Nat.add_0_r.
    assert (Huq : unquote [c] = [c]).
    { unfold unquote. simpl. destruct (N.eqb_spec c DQUOTE); [congruence|].
      reflexivity. }
    rewrite <- Nat.negb_odd, <- IHq.
    destruct ((c =? COMMA)%N && negb (inQuote st)) eqn:Hsep.
    + cbn [inQuote result current]. split; [exact IHq|].
      rewrite cut_at_snoc_sep by (auto using separators_bound; lia).
      rewrite map_app, <- IHr. reflexivity.
    + cbn [inQuote result current]. split; [exact IHq|].
      rewrite app_nil_r, cut_at_snoc_char
        by (auto using separators_bound; lia).
      rewrite map_unquote_snoc_last by apply cut_at_nonempty.
      rewrite <- IHr, removelast_last, last_last, Huq. reflexivity.
Qed.

(** C5.  The tokenizer cuts the line at the commas that stand outside
    quoted regions and nowhere else, so that commas inside a quoted region
    stay in their field, and drops the quote characters; the example line
    of the specification gives the three fields a / b,c / d. *)
Theorem splitCSVLine_spec :
  (forall line,
      splitCSVLine line = map unquote (cut_at (separators line) 0 line)) /\
  splitCSVLine example_line = [lit "a"; lit "b,c"; lit "d"].
Proof.
  split; [|reflexivity].
  intros line. unfold splitCSVLine.
  apply (split_state_spec line).
Qed.

End Tokenizer.

(* ================================================================= *)
(** ** Deletion *)

Section Deletion.

Import Store Spec.

Lemma str_eqb_eq a b : str_eqb a b = true <-> a = b.
Proof.
  unfold str_eqb. destruct (list_eq_dec N.eq_dec a b); split;
    congruence.
Qed.

Lemma str_eqb_neq a b : str_eqb a b = false <-> a <> b.
Proof.
  unfold str_eqb. destruct (list_eq_dec N.eq_dec a b); split;
    congruence.
Qed.

Lemma str_eqb_refl a : str_eqb a a = true.
Proof. apply str_eqb_eq. reflexivity. Qed.

(** Without the confirmation nothing is deleted. *)
Lemma deleteTransaction_cancelled id ts : deleteTransaction false id ts = ts.
Proof. reflexivity. Qed.

Lemma delete_absent id ts :
  ~ In id (map Tx.id ts) -> deleteTransaction true id ts = ts.
Proof.
  unfold deleteTransaction. simpl.
  induction ts as [|t ts IH]; simpl; intros Hn; [reflexivity|].
  destruct (str_eqb (Tx.id t) id) eqn:E.
  - apply str_eqb_eq in E. tauto.
  - simpl. f_equal. apply IH. tauto.
Qed.

Lemma delete_no_id id ts :
  ~ In id (map Tx.id (deleteTransaction true id ts)).
Proof.
  unfold deleteTransaction. simpl.
  rewrite in_map_iff. intros [t [Ht Hin]].
  apply filter_In in Hin. destruct Hin as [_ Hne].
  apply negb_true_iff, str_eqb_neq in Hne. congruence.
Qed.

(** C8.  In a store with unique ids, deleting a present id (the user
    having confirmed) leaves no record with that id and makes the store one
    record shorter; deleting an absent id changes nothing. *)
Theorem deleteTransaction_unique_ids (ts : list Transaction) (id : jsstring) :
  NoDup (map Tx.id ts) ->
  let ts' := deleteTransaction true id ts in
  (In id (map Tx.id ts) ->
     ~ In id (map Tx.id ts') /\ S (length ts') = length ts) /\
  (~ In id (map Tx.id ts) -> ts' = ts /\ length ts' = length ts).
Proof.
  intros Hnd ts'. split.
  - intros Hin. split; [apply delete_no_id|].
    subst ts'. induction ts as [|t ts IH]; [contradiction|].
    simpl in Hnd. inversion Hnd as [|? ? Hnot Hnd']; subst.
    unfold deleteTransaction in *. simpl in *.
    destruct (str_eqb (Tx.id t) id) eqn:E; simpl.
    + apply str_eqb_eq in E. subst id.
      pose proof (delete_absent (Tx.id t) ts Hnot) as Habs.
      unfold deleteTransaction in Habs. simpl in Habs.
      rewrite Habs. reflexivity.
    + apply str_eqb_neq in E. f_equal. apply IH; [assumption|].
      destruct Hin; [congruence|assumption].
  - intros Hn. subst ts'. rewrite delete_absent by assumption.
    split; reflexivity.
Qed.

Lemma deleteTransaction_unique_ids_witness :
  NoDup (map Tx.id [lunch; salary; train]) /\
  length (deleteTransaction true (lit "t2") [lunch; salary; train]) = 2 /\
  deleteTransaction true (lit "zz") [lunch; salary; train] =
    [lunch; salary; train].
Proof.
  assert (Hnd : NoDup (map Tx.id [lunch; salary; train])).
  { repeat constructor; simpl; intuition discriminate. }
  destruct (deleteTransaction_unique_ids [lunch; salary; train]
              (lit "t2") Hnd) as [Hpresent _].
  destruct (deleteTransaction_unique_ids [lunch; salary; train]
              (lit "zz") Hnd) as [_ Habsent].
  split; [exact Hnd|]. split.
  - destruct Hpresent as [_ Hlen]; [simpl; auto|].
    exact (eq_add_S _ _ Hlen).
  - destruct Habsent as [Heq _]; [simpl; intuition discriminate|].
    exact Heq.
Defined.

(** C10.  Deletion removes every record that has the given id, however
    many there are; the records with another id all stay, unchanged and in
    their order. *)
Theorem deleteTransaction_frame (ts : list Transaction) (id : jsstring) :
  let ts' := deleteTransaction true id ts in
  Forall (fun t => Tx.id t <> id) ts' /\
  Subseq ts' ts /\
  (forall t, In t ts -> Tx.id t <> id -> In t ts') /\
  length ts =
    length ts' + length (filter (fun t => str_eqb (Tx.id t) id) ts).
Proof.
  cbv zeta. unfold deleteTransaction. simpl. repeat split.
  - apply Forall_forall. intros t Ht. apply filter_In in Ht.
    destruct Ht as [_ Hne]. apply negb_true_iff, str_eqb_neq in Hne.
    exact Hne.
  - induction ts as [|t ts IH]; simpl; [constructor|].
    destruct (str_eqb (Tx.id t) id); simpl; constructor; exact IH.
  - intros t Hin Hne. apply filter_In. split; [exact Hin|].
    apply negb_true_iff, str_eqb_neq. exact Hne.
  - induction ts as [|t ts IH]; simpl; [reflexivity|].
    destruct (str_eqb (Tx.id t) id); simpl; lia.
Qed.

End Deletion.

(* ================================================================= *)
(** ** Numbers *)

Section Numbers.

Open Scope Z_scope.

Lemma F_small z : Z.abs z < 2 ^ 53 -> F z = Fin z.
Proof.
  intros H. unfold F. destruct (Z.ltb_spec (Z.abs z) (2 ^ 53)); [reflexivity|lia].
Qed.

(** The pieces of the rounding of a large magnitude. *)
Lemma F_large_parts a :
  2 ^ 53 <= a ->
  let e := Z.log2 a - 52 in
  let q := Z.shiftr a e in
  1 <= e /\ 2 ^ 52 <= q < 2 ^ 53 /\ 2 ^ (e + 53) = 2 ^ 53 * 2 ^ e.
Proof.
  intros Ha e q.
  assert (Hpos : 0 < a) by (assert (0 < 2 ^ 53) by reflexivity; lia).
  assert (Hlog : 53 <= Z.log2 a).
  { apply Z.log2_le_pow2; [exact Hpos|exact Ha]. }
  destruct (Z.log2_spec a Hpos) as [Hlo Hhi].
  assert (He : 1 <= e) by (unfold e; lia).
  assert (Hsplit : forall k, 0 <= k -> 2 ^ (e + k) = 2 ^ k * 2 ^ e).
  { intros k Hk. rewrite Z.pow_add_r by lia. lia. }
  assert (H2e : 0 < 2 ^ e) by (apply Z.pow_pos_nonneg; lia).
  replace (Z.log2 a) with (e + 52) in Hlo by (unfold e; lia).
  replace (Z.succ (Z.log2 a)) with (e + 53) in Hhi by (unfold e; lia).
  rewrite Hsplit in Hlo, Hhi by lia.
  split; [exact He|]. split; [|apply Hsplit; lia].
  unfold q. rewrite Z.shiftr_div_pow2 by lia. split.
  - apply Z.div_le_lower_bound; lia.
  - apply Z.div_lt_upper_bound; lia.
Qed.

(** Name the rounded quotient [q'] and keep only [q <= q' <= q + 1]. *)
Ltac round_up_cases q q' H :=
  match goal with
  | |- context [if ?c then q + 1 else q] =>
      remember (if c then q + 1 else q) as q' eqn:Eq';
      assert (H : q <= q' <= q + 1) by (subst q'; destruct c; lia);
      clear Eq'
  end.

Lemma F_cases z :
  F z = Fin z \/
  (2 ^ 53 <= Z.abs z /\
   (F z = Inf (z <? 0) \/
    exists v, 0 < v /\ F z = Fin (Z.sgn z * v) /\
              v <= 2 ^ (Z.log2 (Z.abs z) + 1))).
Proof.
  unfold F. destruct (Z.ltb_spec (Z.abs z) (2 ^ 53)) as [|Ha]; [left; reflexivity|].
  right. split; [exact Ha|].
  destruct (F_large_parts Ha) as [He [[Hq1 Hq2] Hpow]].
  cbv zeta in *.
  set (e := Z.log2 (Z.abs z) - 52) in *.
  set (q := Z.shiftr (Z.abs z) e) in *.
  round_up_cases q q' Hq'.
  destruct (Z.leb_spec (2 ^ 1024) (Z.shiftl q' e)); [left; reflexivity|].
  right. exists (Z.shiftl q' e).
  rewrite Z.shiftl_mul_pow2 by lia.
  assert (H2e : 0 < 2 ^ e) by (apply Z.pow_pos_nonneg; lia).
  assert (H252 : 0 < 2 ^ 52) by reflexivity.
  split; [nia|]. split; [reflexivity|].
  replace (Z.log2 (Z.abs z) + 1) with (e + 53) by (unfold e; lia).
  rewrite Hpow. nia.
Qed.

Lemma F_not_NaN z : isNaN (F z) = false.
Proof.
  destruct (F_cases z) as [-> | [_ [-> | [v [_ [-> _]]]]]]; reflexivity.
Qed.

Lemma F_lt0 z : lt0 (F z) = (z <? 0).
Proof.
  destruct (F_cases z) as [-> | [Ha [-> | [v [Hv [-> _]]]]]];
    try reflexivity.
  simpl. destruct (Z.ltb_spec z 0), (Z.ltb_spec (Z.sgn z * v) 0);
    try reflexivity; nia.
Qed.

Lemma F_gt0 z : gt0 (F z) = (0 <? z).
Proof.
  assert (H253 : 0 < 2 ^ 53) by reflexivity.
  destruct (F_cases z) as [-> | [Ha [-> | [v [Hv [-> _]]]]]];
    try reflexivity; simpl.
  - destruct (Z.ltb_spec z 0), (Z.ltb_spec 0 z); try reflexivity; lia.
  - destruct (Z.ltb_spec 0 z), (Z.ltb_spec 0 (Z.sgn z * v));
      try reflexivity; nia.
Qed.

Lemma F_finite z : Z.abs z < 2 ^ 1023 -> exists z', F z = Fin z'.
Proof.
  intros Hz.
  destruct (F_cases z) as [-> | [Ha [HF | [v [Hv [-> _]]]]]]; eauto.
  exfalso. revert HF. unfold F.
  destruct (Z.ltb_spec (Z.abs z) (2 ^ 53)) as [|_]; [discriminate|].
  destruct (F_large_parts Ha) as [He [[Hq1 Hq2] Hpow]].
  cbv zeta in *.
  set (e := Z.log2 (Z.abs z) - 52) in *.
  set (q := Z.shiftr (Z.abs z) e) in *.
  round_up_cases q q' Hq'.
  destruct (Z.leb_spec (2 ^ 1024) (Z.shiftl q' e)) as [Hbig|]; [|discriminate].
  intros _. rewrite Z.shiftl_mul_pow2 in Hbig by lia.
  assert (Hpos : 0 < Z.abs z) by (assert (0 < 2 ^ 53) by reflexivity; lia).
  assert (Hlog : Z.log2 (Z.abs z) < 1023).
  { apply Z.log2_lt_pow2; [exact Hpos|exact Hz]. }
  assert (Hmono : 2 ^ (e + 53) <= 2 ^ 1023).
  { apply Z.pow_le_mono_r; unfold e; lia. }
  assert (H2e : 0 < 2 ^ e) by (apply Z.pow_pos_nonneg; lia).
  assert (Hlt : 2 ^ 1023 < 2 ^ 1024) by reflexivity.
  nia.
Qed.

Lemma or0_not_NaN a : isNaN (or0 a) = false.
Proof. destruct a as [| |[| |]]; reflexivity. Qed.

Lemma or0_lt0 a : lt0 (or0 a) = lt0 a.
Proof. destruct a as [| |[| |]]; reflexivity. Qed.

Lemma or0_finite a : (exists z, a = Fin z) -> exists z, or0 a = Fin z.
Proof. intros [z ->]. destruct z; simpl; eauto. Qed.

End Numbers.

(* ================================================================= *)
(** ** Amounts *)

Section Amounts.

Import Csv.

Lemma trimStart_suffix s : exists ws, s = ws ++ trimStart s.
Proof.
  induction s as [|c s [ws IH]]; [exists []; reflexivity|].
  simpl. destruct (is_ws c).
  - exists (c :: ws). simpl. f_equal. exact IH.
  - exists []. reflexivity.
Qed.

Lemma trimStart_In c s : In c (trimStart s) -> In c s.
Proof.
  destruct (trimStart_suffix s) as [ws E]. intros H.
  rewrite E. apply in_or_app. right. exact H.
Qed.

Lemma trimStart_length s : length (trimStart s) <= length s.
Proof.
  destruct (trimStart_suffix s) as [ws E].
  rewrite E at 2. rewrite length_app. lia.
Qed.

Lemma trim_In c s : In c (trim s) -> In c s.
Proof.
  unfold trim, trimEnd. intros H.
  apply in_rev, trimStart_In, in_rev, trimStart_In in H. exact H.
Qed.

Lemma trim_length s : length (trim s) <= length s.
Proof.
  unfold trim, trimEnd. rewrite length_rev.
  etransitivity; [apply trimStart_length|].
  rewrite length_rev. apply trimStart_length.
Qed.

Lemma digit_val_lt radix c d : digit_val radix c = Some d -> (d < radix)%N.
Proof.
  unfold digit_val.
  match goal with
  | |- match ?x with _ => _ end = _ -> _ => destruct x as [v|]
  end; [|discriminate].
  destruct (N.ltb_spec v radix); [|discriminate].
  intros [= <-]. assumption.
Qed.

Lemma leading_digits_lt radix s :
  Forall (fun d => (d < radix)%N) (leading_digits radix s).
Proof.
  induction s as [|c s IH]; simpl; [constructor|].
  destruct (digit_val radix c) as [d|] eqn:E; constructor.
  - eapply digit_val_lt; eassumption.
  - exact IH.
Qed.

Lemma leading_digits_length radix s :
  length (leading_digits radix s) <= length s.
Proof.
  induction s as [|c s IH]; simpl; [lia|].
  destruct (digit_val radix c); simpl; lia.
Qed.

Lemma digits_value_from radix ds : forall acc,
  Forall (fun d => (d < radix)%N) ds ->
  (0 <= acc)%Z ->
  (0 <= fold_left (fun acc d => acc * Z.of_N radix + Z.of_N d) ds acc
     < (acc + 1) * Z.of_N radix ^ Z.of_nat (length ds))%Z.
Proof.
  induction ds as [|d ds IH]; intros acc Hds Hacc.
  - simpl. lia.
  - inversion Hds as [|? ? Hd Hds']; subst.
    cbn [fold_left length].
    specialize (IH (acc * Z.of_N radix + Z.of_N d)%Z Hds').
    rewrite Nat2Z.inj_succ, Z.pow_succ_r by lia.
    assert (0 <= Z.of_N radix ^ Z.of_nat (length ds))%Z
      by (apply Z.pow_nonneg; lia).
    nia.
Qed.

Lemma digits_value_bounds radix ds :
  Forall (fun d => (d < radix)%N) ds ->
  (0 <= digits_value radix ds < Z.of_N radix ^ Z.of_nat (length ds))%Z.
Proof.
  intros H. pose proof (digits_value_from (acc := 0%Z) H) as B.
  unfold digits_value. lia.
Qed.

Lemma strip_sign_length s : length (snd (strip_sign s)) <= length s.
Proof.
  destruct s as [|c s]; simpl; [lia|].
  destruct (c =? HYPHEN)%N; [simpl; lia|].
  destruct (c =? PLUS)%N; simpl; lia.
Qed.

Lemma strip_sign_negative s :
  fst (strip_sign s) = true -> In HYPHEN s.
Proof.
  destruct s as [|c s]; simpl; [discriminate|].
  destruct (N.eqb_spec c HYPHEN) as [->|]; [left; reflexivity|].
  destruct (c =? PLUS)%N; discriminate.
Qed.

Lemma strip_hex_prefix_spec s :
  let (radix, s') := strip_hex_prefix s in
  (radix = 10 \/ radix = 16)%N /\ length s' <= length s.
Proof.
  destruct s as [|c [|d s]]; simpl; try (split; [left; reflexivity|lia]).
  destruct (_ && _); simpl; split; auto; lia.
Qed.

(** What [parseInt] returns: NaN, or the double of an integer whose sign
    is the sign read and whose size is bounded by the number of digits. *)
Lemma parseInt_cases s :
  parseInt s = NaN \/
  exists m : Z,
    (0 <= m < 16 ^ Z.of_nat (length s))%Z /\
    parseInt s = F (if fst (strip_sign (trimStart s)) then - m else m).
Proof.
  unfold parseInt.
  pose proof (strip_sign_length (trimStart s)) as Hlen1.
  pose proof (trimStart_length s) as Hlen0.
  destruct (strip_sign (trimStart s)) as [negative s1]. simpl in *.
  pose proof (strip_hex_prefix_spec s1) as Hhex.
  destruct (strip_hex_prefix s1) as [radix s2].
  destruct Hhex as [Hradix Hlen2].
  pose proof (leading_digits_lt radix s2) as Hlt.
  pose proof (leading_digits_length radix s2) as Hlen3.
  destruct (leading_digits radix s2) as [|d ds] eqn:E; [left; reflexivity|].
  right. exists (digits_value radix (d :: ds)). split; [|reflexivity].
  pose proof (digits_value_bounds Hlt) as [Hlo Hhi].
  split; [exact Hlo|].
  eapply Z.lt_le_trans; [exact Hhi|].
  apply Z.pow_le_mono; destruct Hradix; subst; lia.
Qed.

Lemma parseInt_no_minus s : ~ In HYPHEN s -> lt0 (parseInt s) = false.
Proof.
  intros Hs.
  destruct (parseInt_cases s) as [-> | [m [[Hm _] ->]]]; [reflexivity|].
  rewrite F_lt0.
  destruct (fst (strip_sign (trimStart s))) eqn:E.
  - exfalso. apply Hs, trimStart_In, strip_sign_negative. exact E.
  - apply Z.ltb_ge. exact Hm.
Qed.

Lemma parseInt_short s :
  length s <= 255 -> parseInt s = NaN \/ exists z, parseInt s = Fin z.
Proof.
  intros Hs.
  destruct (parseInt_cases s) as [-> | [m [[Hm1 Hm2] ->]]]; [left; reflexivity|].
  right. apply F_finite.
  assert (16 ^ Z.of_nat (length s) <= 16 ^ 255)%Z
    by (apply Z.pow_le_mono_r; lia).
  assert (16 ^ 255 < 2 ^ 1023)%Z by reflexivity.
  destruct (fst _); lia.
Qed.

(** C3, as the code has it.  The amount of a field is never NaN and never
    fractional: it is 0 when the field is absent, empty or has no leading
    integer, it is not negative when the field has no minus sign, and it is
    a finite integer when the field has at most 255 characters. *)
Theorem parseAmount_range (f : field) :
  isNaN (parseAmount f) = false /\
  (forall s, f = Some s ->
     parseInt (trim (strip_quotes_commas s)) = NaN ->
     parseAmount f = Fin 0) /\
  (f = None \/ f = Some [] -> parseAmount f = Fin 0) /\
  (forall s, f = Some s -> ~ In HYPHEN s -> lt0 (parseAmount f) = false) /\
  (forall s, f = Some s -> length s <= 255 ->
     exists z, parseAmount f = Fin z).
Proof.
  repeat split.
  - destruct f as [[|c s]|]; try reflexivity. apply or0_not_NaN.
  - intros s -> H. destruct s; [reflexivity|]. simpl in *.
    unfold parseAmount. rewrite H. reflexivity.
  - intros [-> | ->]; reflexivity.
  - intros s -> Hs. destruct s as [|c s]; [reflexivity|].
    unfold parseAmount. rewrite or0_lt0. apply parseInt_no_minus.
    intros Hin. apply Hs.
    apply trim_In in Hin. unfold strip_quotes_commas in Hin.
    apply filter_In in Hin. tauto.
  - intros s -> Hs. destruct s as [|c s]; [exists 0%Z; reflexivity|].
    unfold parseAmount.
    set (clean := trim (strip_quotes_commas (c :: s))).
    assert (Hclean : length clean <= 255).
    { unfold clean. etransitivity; [apply trim_length|].
      unfold strip_quotes_commas.
      etransitivity; [apply filter_length_le|exact Hs]. }
    destruct (parseInt_short clean Hclean) as [-> | H].
    + exists 0%Z. reflexivity.
    + apply or0_finite. exact H.
Qed.

Lemma parseAmount_range_witness :
  parseAmount (Some (lit "1,200")) = Fin 1200 /\
  lt0 (parseAmount (Some (lit "1,200"))) = false /\
  parseAmount (Some (lit "abc")) = Fin 0.
Proof.
  destruct (parseAmount_range (Some (lit "1,200")))
    as [_ [_ [_ [Hsign _]]]].
  destruct (parseAmount_range (Some (lit "abc"))) as [_ [Hnan _]].
  split; [reflexivity|]. split.
  - apply (Hsign _ eq_refl). simpl. intuition discriminate.
  - apply (Hnan _ eq_refl). reflexivity.
Defined.

(** The amount of a field with a minus sign is negative: -500. *)
Lemma parseAmount_negative :
  parseAmount (Some (lit "-500")) = Fin (-500) /\
  lt0 (parseAmount (Some (lit "-500"))) = true.
Proof. split; reflexivity. Qed.

(** The examples of the specification. *)
Example parseAmount_examples :
  parseAmount (Some (lit "1200")) = Fin 1200 /\
  parseAmount (Some ([DQUOTE] ++ lit "1,200" ++ [DQUOTE])) = Fin 1200 /\
  parseAmount (Some []) = Fin 0 /\
  parseAmount (Some (lit "abc")) = Fin 0.
Proof. repeat split; reflexivity. Qed.

(** Beyond the largest double the amount is infinite: 1 followed by 400
    zeros. *)
Example parseAmount_infinite :
  parseAmount (Some (49%N :: repeat ZERO 400)) = Inf false.
Proof. vm_compute. reflexivity. Qed.

End Amounts.

(* ================================================================= *)
(** ** Month totals *)

Section MonthTotals.

Import Agg Spec.
Open Scope Z_scope.

Lemma F_ge0 z : ge0 (F z) = (0 <=? z).
Proof.
  pose proof (F_lt0 z) as Hlt. pose proof (F_not_NaN z) as Hnan.
  destruct (F z) as [|s|x]; simpl in *; try discriminate.
  - rewrite Hlt. rewrite Z.leb_antisym. reflexivity.
  - rewrite !Z.leb_antisym, Hlt. reflexivity.
Qed.

Lemma nadd_ge0 a b : ge0 a = true -> ge0 b = true -> ge0 (nadd a b) = true.
Proof.
  destruct a as [|[|]|x], b as [|[|]|y]; simpl; try discriminate; auto.
  intros Hx Hy. rewrite F_ge0. apply Z.leb_le in Hx, Hy. apply Z.leb_le. lia.
Qed.

Lemma sum_from_ge0 l : forall acc,
  ge0 acc = true ->
  Forall (fun t => ge0 (Tx.amount t) = true) l ->
  ge0 (fold_left (fun sum t => nadd sum (Tx.amount t)) l acc) = true.
Proof.
  induction l as [|t l IH]; intros acc Hacc Hl; simpl; [exact Hacc|].
  inversion Hl; subst. apply IH; [apply nadd_ge0|]; assumption.
Qed.

Lemma sum_amount_ge0 l :
  Forall (fun t => ge0 (Tx.amount t) = true) l -> ge0 (sum_amount l) = true.
Proof. apply sum_from_ge0. reflexivity. Qed.

Lemma Forall_filter {A} (P : A -> Prop) f l :
  Forall P l -> Forall P (filter f l).
Proof.
  rewrite !Forall_forall. intros H x Hx. apply filter_In in Hx. apply H, Hx.
Qed.

Lemma strict_eq_refl a : isNaN a = false -> strict_eq a a = true.
Proof.
  destruct a as [|s|z]; simpl; [discriminate| |]; intros _.
  - destruct s; reflexivity.
  - apply Z.eqb_refl.
Qed.

(** C6, as the code has it.  The balance of a month is its income minus
    its expense; when no amount of the month is negative, neither total is
    negative, and the test [income - expense == balance] succeeds as soon
    as one of the two totals is finite. *)
Theorem monthTotals_balance (T : list Transaction) (M : jsstring) :
  let r := monthTotals T M in
  balance r = nsub (income r) (expense r) /\
  (Forall (fun t => ge0 (Tx.amount t) = true) (currentMonthData T M) ->
   ge0 (income r) = true /\ ge0 (expense r) = true /\
   (is_fin (income r) || is_fin (expense r) = true ->
    strict_eq (nsub (income r) (expense r)) (balance r) = true)).
Proof.
  cbv zeta. split; [reflexivity|].
  intros Hpos. unfold monthTotals. cbn [income expense balance].
  set (data := currentMonthData T M) in *.
  assert (Hi : ge0 (sum_amount (filter (type_is INCOME) data)) = true)
    by (apply sum_amount_ge0, Forall_filter, Hpos).
  assert (He : ge0 (sum_amount (filter (type_is EXPENSE) data)) = true)
    by (apply sum_amount_ge0, Forall_filter, Hpos).
  repeat split; try assumption.
  intros Hfin. apply strict_eq_refl.
  destruct (sum_amount (filter (type_is INCOME) data)) as [|[|]|x],
           (sum_amount (filter (type_is EXPENSE) data)) as [|[|]|y];
    simpl in *; try discriminate; try reflexivity.
  apply F_not_NaN.
Qed.

Lemma monthTotals_balance_witness :
  let r := monthTotals [lunch; salary; train] (lit "2025-03") in
  income r = Fin 300000 /\ expense r = Fin 1680 /\
  balance r = Fin 298320 /\
  ge0 (income r) = true /\ ge0 (expense r) = true /\
  strict_eq (nsub (income r) (expense r)) (balance r) = true.
Proof.
  cbv zeta.
  destruct (monthTotals_balance [lunch; salary; train] (lit "2025-03"))
    as [Hb Hpos].
  destruct Hpos as [Hi [He Heq]].
  { repeat constructor. }
  split; [reflexivity|]. split; [reflexivity|]. split; [reflexivity|].
  split; [exact Hi|]. split; [exact He|].
  apply Heq. reflexivity.
Defined.

(** A refund, imported as an expense of -500, makes the expense of its
    month negative. *)
Lemma monthTotals_negative_expense :
  let text := lit "header" ++ [LF]
                ++ lit "2025,3,20," ++ EXPENSE ++ lit ",food,,refund,-500" in
  exists T,
    Csv.parseCSVText uuid0 text = Normal T /\
    expense (monthTotals T (lit "2025-03")) = Fin (-500) /\
    ge0 (expense (monthTotals T (lit "2025-03"))) = false.
Proof.
  cbv zeta. eexists. split; [vm_compute; reflexivity|].
  split; reflexivity.
Qed.

End MonthTotals.

(* ================================================================= *)
(** ** Category totals *)

Section CategoryTotals.

Import Agg Spec.
Open Scope Z_scope.

Lemma magnitude_nonneg a : 0 <= magnitude a.
Proof.
  assert (0 < 2 ^ 53) by reflexivity.
  destruct a; unfold magnitude; lia.
Qed.

Lemma total_magnitude_nonneg l : 0 <= total_magnitude l.
Proof.
  induction l as [|a l IH]; simpl; [lia|].
  pose proof (magnitude_nonneg a). lia.
Qed.

Lemma magnitude_small a :
  magnitude a < 2 ^ 53 -> a = Fin (zval a) /\ Z.abs (zval a) = magnitude a.
Proof. destruct a; simpl; intros H; try lia. split; reflexivity. Qed.

Lemma zsum_app l1 l2 : zsum (l1 ++ l2) = zsum l1 + zsum l2.
Proof. induction l1 as [|a l1 IH]; simpl; lia. Qed.

Lemma total_magnitude_app l1 l2 :
  total_magnitude (l1 ++ l2) = total_magnitude l1 + total_magnitude l2.
Proof. induction l1 as [|a l1 IH]; simpl; lia. Qed.

Lemma zsum_perm l1 l2 : Permutation l1 l2 -> zsum l1 = zsum l2.
Proof. induction 1; simpl; lia. Qed.

Lemma total_magnitude_perm l1 l2 :
  Permutation l1 l2 -> total_magnitude l1 = total_magnitude l2.
Proof. induction 1; simpl; lia. Qed.

Lemma total_magnitude_filter (f : Transaction -> bool) l :
  total_magnitude (map Tx.amount (filter f l)) <=
  total_magnitude (map Tx.amount l).
Proof.
  induction l as [|t l IH]; simpl; [lia|].
  pose proof (magnitude_nonneg (Tx.amount t)).
  destruct (f t); simpl; lia.
Qed.

Lemma zsum_abs l : Z.abs (zsum l) <= total_magnitude l.
Proof.
  induction l as [|a l IH]; simpl; [lia|].
  assert (Z.abs (zval a) <= magnitude a).
  { destruct a; simpl; try lia; assert (0 < 2 ^ 53) by reflexivity; lia. }
  lia.
Qed.

(** Below [2^53] in total size the additions of a fold are exact. *)
Lemma fold_nadd_exact l : forall a,
  Z.abs a + total_magnitude l < 2 ^ 53 ->
  fold_left nadd l (Fin a) = Fin (a + zsum l).
Proof.
  induction l as [|b l IH]; intros a H; simpl in *.
  - f_equal. lia.
  - pose proof (total_magnitude_nonneg l).
    destruct (magnitude_small b) as [Eb Hb]; [lia|].
    rewrite Eb. cbn [nadd zval]. rewrite F_small by lia.
    rewrite IH by lia. f_equal. lia.
Qed.

Lemma sum_values_exact vs :
  total_magnitude vs < 2 ^ 53 -> sum_values vs = Fin (zsum vs).
Proof. intros H. unfold sum_values. rewrite fold_nadd_exact; simpl; auto. Qed.

Lemma sum_amount_map l : sum_amount l = sum_values (map Tx.amount l).
Proof.
  unfold sum_amount, sum_values. generalize (Fin 0).
  induction l as [|t l IH]; intros acc; simpl; [reflexivity|apply IH].
Qed.

Lemma sum_amount_exact l :
  total_magnitude (map Tx.amount l) < 2 ^ 53 ->
  sum_amount l = Fin (zsum (map Tx.amount l)).
Proof. intros H. rewrite sum_amount_map. apply sum_values_exact, H. Qed.

Lemma nadd_or0_exact x z :
  Z.abs x + Z.abs z < 2 ^ 53 -> nadd (or0 (Fin x)) (Fin z) = Fin (x + z).
Proof. intros H. destruct x; cbn [or0 nadd]; apply F_small; lia. Qed.

(** *** The table as a map *)

Lemma values_app o1 o2 : values (o1 ++ o2) = values o1 ++ values o2.
Proof. apply map_app. Qed.

Lemma own_get_set o k v k' :
  own_get (own_set o k v) k' =
  if str_eqb k k' then Some v else own_get o k'.
Proof.
  induction o as [|[k1 v1] o IH]; simpl.
  - reflexivity.
  - destruct (str_eqb k1 k) eqn:E1; simpl.
    + apply str_eqb_eq in E1. subst k1.
      destruct (str_eqb k k'); reflexivity.
    + destruct (str_eqb k1 k') eqn:E2; [|exact IH].
      apply str_eqb_eq in E2. subst k1.
      destruct (str_eqb k k') eqn:E3; [|reflexivity].
      apply str_eqb_eq in E3. subst k'.
      rewrite str_eqb_refl in E1. discriminate.
Qed.

Lemma own_get_None o k : own_get o k = None -> ~ In k (map fst o).
Proof.
  induction o as [|[k1 v1] o IH]; simpl; [tauto|].
  destruct (str_eqb k1 k) eqn:E; [discriminate|].
  apply str_eqb_neq in E. intros H [H1|H1]; [congruence|].
  exact (IH H H1).
Qed.

Lemma own_set_absent o k v : own_get o k = None -> own_set o k v = o ++ [(k, v)].
Proof.
  induction o as [|[k1 v1] o IH]; simpl; [reflexivity|].
  destruct (str_eqb k1 k); [discriminate|].
  intros H. rewrite IH by exact H. reflexivity.
Qed.

Lemma own_set_present o k v x :
  own_get o k = Some x ->
  map fst (own_set o k v) = map fst o /\
  zsum (values (own_set o k v)) = zsum (values o) - zval x + zval v /\
  total_magnitude (values (own_set o k v)) =
    total_magnitude (values o) - magnitude x + magnitude v /\
  magnitude x <= total_magnitude (values o).
Proof.
  induction o as [|[k1 v1] o IH]; simpl; [discriminate|].
  destruct (str_eqb k1 k) eqn:E; simpl.
  - intros [= ->]. pose proof (total_magnitude_nonneg (values o)).
    repeat split; try lia.
  - intros H. destruct (IH H) as [H1 [H2 [H3 H4]]].
    pose proof (magnitude_nonneg v1).
    unfold values in *. rewrite H1, H2, H3. repeat split; lia.
Qed.

Lemma totals_forEach_spec rest : forall totals,
  Forall (fun t => inherited (prop_key (Tx.category_med t)) = false) rest ->
  total_magnitude (values totals) + total_magnitude (map Tx.amount rest)
    < 2 ^ 53 ->
  NoDup (map fst totals) ->
  exists out,
    totals_forEach rest totals = Some out /\
    NoDup (map fst out) /\
    total_magnitude (values out) <=
      total_magnitude (values totals) + total_magnitude (map Tx.amount rest) /\
    zsum (values out) = zsum (values totals) + zsum (map Tx.amount rest) /\
    forall k, own_get out k = group_after (own_get totals k) k rest.
Proof.
  induction rest as [|t rest IH]; intros totals Hkeys Hsize Hnd.
  - exists totals. simpl in *. repeat split; try assumption; try lia.
    intros k. unfold group_after. simpl.
    destruct (own_get totals k) as [v|] eqn:E; [|reflexivity].
    destruct (own_set_present totals k v E) as [_ [_ [_ Hv]]].
    destruct (magnitude_small v) as [Ev _]; [lia|].
    rewrite Z.add_0_r, <- Ev. reflexivity.
  - inversion Hkeys as [|? ? Hk Hkeys']; subst.
    cbn [map total_magnitude fold_right] in Hsize.
    fold (total_magnitude (map Tx.amount rest)) in Hsize.
    pose proof (total_magnitude_nonneg (values totals)) as Hpos1.
    pose proof (total_magnitude_nonneg (map Tx.amount rest)) as Hpos2.
    destruct (magnitude_small (Tx.amount t)) as [Ea Hz]; [lia|].
    set (z := zval (Tx.amount t)) in *.
    set (k0 := prop_key (Tx.category_med t)) in *.
    cbn [totals_forEach]. unfold totals_step. fold k0. rewrite Ea.
    destruct (own_get totals k0) as [v|] eqn:Eg.
    + (* the category has a total already *)
      destruct (own_set_present totals k0 (Fin (zval v + z)) Eg)
        as [Hfst [Hsum [Hmag Hv]]].
      destruct (magnitude_small v) as [Ev Hx]; [lia|].
      assert (Enew : nadd (or0 v) (Fin z) = Fin (zval v + z)).
      { rewrite Ev. cbn [zval]. apply nadd_or0_exact. lia. }
      rewrite Enew. cbn [magnitude zval] in Hsum, Hmag.
      destruct (IH (own_set totals k0 (Fin (zval v + z))))
        as [out [Hout [Hnd' [Hm [Hs Hget]]]]];
        [assumption | lia | rewrite Hfst; assumption |].
      exists out. split; [exact Hout|]. split; [exact Hnd'|].
      cbn [map zsum total_magnitude fold_right].
      fold (zsum (map Tx.amount rest)).
      fold (total_magnitude (map Tx.amount rest)).
      rewrite Ea. cbn [zval magnitude].
      split; [lia|]. split; [lia|].
      intros k. rewrite Hget, own_get_set. unfold group_after.
      assert (Hhk : has_key k t = str_eqb k0 k) by reflexivity.
      cbn [filter existsb]. rewrite !Hhk.
      destruct (str_eqb k0 k) eqn:Ek.
      * apply str_eqb_eq in Ek. subst k. rewrite Eg.
        cbn [map zsum fold_right zval]. rewrite Ea. cbn [zval].
        do 2 f_equal. unfold zsum. lia.
      * reflexivity.
    + (* a new category *)
      rewrite Hk.
      assert (Enew : nadd (Fin 0) (Fin z) = Fin z)
        by (cbn [nadd]; apply F_small; lia).
      rewrite Enew, own_set_absent by exact Eg.
      destruct (IH (totals ++ [(k0, Fin z)]))
        as [out [Hout [Hnd' [Hm [Hs Hget]]]]].
      * assumption.
      * rewrite values_app, total_magnitude_app. simpl. lia.
      * rewrite map_app. simpl. apply NoDup_app; [assumption|repeat constructor; simpl; tauto|].
        intros a Ha [<-|[]]. exact (own_get_None _ _ Eg Ha).
      * rewrite values_app in Hm, Hs.
        rewrite total_magnitude_app in Hm. rewrite zsum_app in Hs.
        simpl in Hm, Hs.
        exists out. split; [exact Hout|]. split; [exact Hnd'|].
        cbn [map zsum total_magnitude fold_right].
        fold (zsum (map Tx.amount rest)).
        fold (total_magnitude (map Tx.amount rest)).
        rewrite Ea. cbn [zval magnitude].
        split; [lia|]. split; [lia|].
        intros k. rewrite Hget, <- own_set_absent, own_get_set by exact Eg.
        unfold group_after.
        assert (Hhk : has_key k t = str_eqb k0 k) by reflexivity.
        cbn [filter existsb]. rewrite !Hhk.
        destruct (str_eqb k0 k) eqn:Ek.
        -- apply str_eqb_eq in Ek. subst k. rewrite Eg.
           cbn [map zsum fold_right zval orb]. rewrite Ea. reflexivity.
        -- reflexivity.
Qed.

(** C7, as the code has it.  When the expense amounts of the month are
    integers of total size below [2^53] and no category is the name of a
    member inherited from [Object.prototype], the table of category totals
    has one entry per category of the expense records of the month, each the
    sum of the amounts of its records, and the values of the table add up,
    in any order, to the expense of the month.  Records of another kind
    have no part in the table. *)
Theorem categoryTotals_sum (T : list Transaction) (M : jsstring) :
  let data := currentMonthData T M in
  let expenses := filter (type_is EXPENSE) data in
  Forall (fun t => inherited (prop_key (Tx.category_med t)) = false)
    expenses ->
  total_magnitude (map Tx.amount expenses) < 2 ^ 53 ->
  exists totals,
    categoryTotals data = Some totals /\
    NoDup (map fst totals) /\
    (forall k, own_get totals k =
       if existsb (has_key k) expenses
       then Some (sum_amount (filter (has_key k) expenses))
       else None) /\
    (forall vs, Permutation vs (values totals) ->
       sum_values vs = expense (monthTotals T M)).
Proof.
  intros data expenses Hkeys Hsize.
  destruct (totals_forEach_spec (rest := expenses) [] Hkeys)
    as [out [Hout [Hnd [Hm [Hs Hget]]]]]; [simpl; lia | constructor |].
  simpl in Hm, Hs.
  exists out. split; [exact Hout|]. split; [exact Hnd|]. split.
  - intros k. rewrite Hget. unfold group_after. cbn [own_get].
    destruct (existsb (has_key k) expenses); [|reflexivity].
    rewrite sum_amount_exact; [reflexivity|].
    eapply Z.le_lt_trans; [apply total_magnitude_filter|exact Hsize].
  - intros vs Hperm.
    rewrite sum_values_exact
      by (rewrite (total_magnitude_perm Hperm); lia).
    rewrite (zsum_perm Hperm), Hs.
    unfold monthTotals. cbn [expense]. fold data. fold expenses.
    rewrite sum_amount_exact by exact Hsize. reflexivity.
Qed.

Lemma categoryTotals_sum_witness :
  exists totals,
    categoryTotals (currentMonthData [lunch; salary; train] (lit "2025-03"))
      = Some totals /\
    own_get totals (lit "food") = Some (Fin 1200) /\
    sum_values (values totals) = Fin 1680.
Proof.
  destruct (categoryTotals_sum [lunch; salary; train] (lit "2025-03"))
    as [totals [Htot [_ [Hget Hsum]]]].
  - repeat constructor.
  - reflexivity.
  - exists totals. split; [exact Htot|]. split.
    + rewrite Hget. reflexivity.
    + rewrite (Hsum (values totals) (Permutation_refl _)). reflexivity.
Defined.

(** Above [2^53] the additions round: with a rent of 9007199254740992 and
    two expenses of 1 in another category, the month's expense is the rent
    alone, and the category totals add up to 2 more. *)
Lemma categoryTotals_rounding :
  let text := lit "header" ++ [LF]
    ++ lit "2025,3,1," ++ EXPENSE ++ lit ",rent,,,9007199254740992" ++ [LF]
    ++ lit "2025,3,2," ++ EXPENSE ++ lit ",food,,,1" ++ [LF]
    ++ lit "2025,3,3," ++ EXPENSE ++ lit ",food,,,1" in
  exists T,
    Csv.parseCSVText uuid0 text = Normal T /\
    categoryTotals (currentMonthData T (lit "2025-03")) =
      Some [(lit "rent", Fin 9007199254740992); (lit "food", Fin 2)] /\
    sum_values [Fin 9007199254740992; Fin 2] = Fin 9007199254740994 /\
    expense (monthTotals T (lit "2025-03")) = Fin 9007199254740992.
Proof.
  cbv zeta. eexists. split; [vm_compute; reflexivity|].
  vm_compute. repeat split.
Qed.

(** A category named like an inherited member takes the table out of the
    numbers. *)
Example categoryTotals_inherited_key :
  categoryTotals [sample "t8" 2025 3 4 EXPENSE "constructor" 100] = None.
Proof. reflexivity. Qed.

End CategoryTotals.

(* ================================================================= *)
(** ** The import *)

Section CsvImport.

Import Csv Spec.

Lemma splitCSVLine_nonempty line : splitCSVLine line <> [].
Proof.
  unfold splitCSVLine. intros H. apply app_eq_nil in H.
  destruct H as [_ H]. discriminate.
Qed.

Lemma nth_error_nth_default {A} (l : list A) n d :
  n < length l -> nth_error l n = Some (nth n l d).
Proof.
  revert n. induction l as [|x l IH]; intros [|n] H; simpl in *;
    try lia; [reflexivity|]. apply IH. lia.
Qed.

(** What the loop body does with a line. *)
Lemma process_line_spec uuid expenses raw :
  process_line uuid expenses raw =
  if data_line raw then
    if wide raw
    then Normal (expenses ++ [item_of (uuid (length expenses)) raw])
    else Throw TypeError
  else Normal expenses.
Proof.
  unfold process_line, data_line, wide, item_of, line_date, fields_of.
  destruct (truthy (Some (trim raw))); [|reflexivity].
  cbn [negb andb].
  set (cols := splitCSVLine (trim raw)).
  pose proof (splitCSVLine_nonempty (trim raw)) as Hne. fold cols in Hne.
  destruct cols as [|c0 cols']; [congruence|].
  cbn [nth_error hd nth].
  destruct (four_digits c0) eqn:E4.
  - assert (Ht : truthy (Some c0) = true).
    { destruct c0; [discriminate|reflexivity]. }
    rewrite Ht. cbn [negb orb].
    destruct cols' as [|c1 [|c2 cols'']]; reflexivity.
  - rewrite orb_true_r. reflexivity.
Qed.

Lemma emit_from_app uuid l1 : forall k l2,
  emit_from uuid k (l1 ++ l2) =
  emit_from uuid k l1 ++ emit_from uuid (k + length l1) l2.
Proof.
  induction l1 as [|raw l1 IH]; intros k l2; simpl.
  - rewrite Nat.add_0_r. reflexivity.
  - rewrite IH. do 3 f_equal. lia.
Qed.

Lemma emit_from_length uuid lines : forall k,
  length (emit_from uuid k lines) = length lines.
Proof. induction lines; intros k; simpl; auto. Qed.

Lemma loop_spec uuid lines : forall expenses,
  loop uuid expenses lines =
  if forallb wide (filter data_line lines)
  then Normal (expenses ++
                 emit_from uuid (length expenses) (filter data_line lines))
  else Throw TypeError.
Proof.
  induction lines as [|raw lines IH]; intros expenses; simpl.
  - rewrite app_nil_r. reflexivity.
  - rewrite process_line_spec.
    destruct (data_line raw); [|apply IH].
    cbn [forallb]. destruct (wide raw); [|reflexivity].
    rewrite IH. cbn [andb emit_from].
    rewrite length_app, <- app_assoc. simpl.
    rewrite Nat.add_1_r. reflexivity.
Qed.

(** The import as a whole: it throws when a data line has fewer than
    three fields, and otherwise returns the records of the data lines, one
    each, in the order of the lines. *)
Theorem parseCSVText_spec uuid text :
  parseCSVText uuid text =
  if forallb wide (data_lines text)
  then Normal (emit_from uuid 0 (data_lines text))
  else Throw TypeError.
Proof. unfold parseCSVText. rewrite loop_spec. reflexivity. Qed.

Corollary parseCSVText_wide uuid text :
  forallb wide (data_lines text) = true ->
  exists items,
    parseCSVText uuid text = Normal items /\
    length items = length (data_lines text) /\
    map Tx.date items = map line_date (data_lines text) /\
    map Tx.id items = map uuid (seq 0 (length items)).
Proof.
  intros H. rewrite parseCSVText_spec, H.
  exists (emit_from uuid 0 (data_lines text)).
  split; [reflexivity|]. rewrite emit_from_length.
  split; [reflexivity|]. clear H.
  generalize 0. induction (data_lines text) as [|raw l IH]; intros k.
  - split; reflexivity.
  - simpl. destruct (IH (S k)) as [H1 H2]. rewrite H1, H2.
    split; reflexivity.
Qed.

(** The two scenarios of the specification: two data lines after the
    header give two records with their dates, and a line that starts with
    TOTAL is left out. *)
Example parseCSVText_scenario :
  let text := lit "header" ++ [LF]
    ++ lit "2025,03,15," ++ EXPENSE ++ lit ",food,,Lunch,1200,,ShopA,Cash"
    ++ [CR; LF]
    ++ lit "2025,03,16," ++ INCOME ++ lit ",pay,,,300000,,,Bank" ++ [LF]
    ++ lit "TOTAL,,,,,,,,,," in
  exists a b,
    parseCSVText uuid0 text = Normal [a; b] /\
    Tx.date a = lit "2025-03-15" /\ Tx.date b = lit "2025-03-16" /\
    Agg.monthTotals [a; b] (lit "2025-03") =
      {| Agg.income := Fin 300000; Agg.expense := Fin 1200;
         Agg.balance := Fin 298800 |}.
Proof.
  cbv zeta. do 2 eexists.
  split; [vm_compute; reflexivity|].
  vm_compute. repeat split.
Qed.

(** C1.  A line whose first field is four digits and that has no second
    field is not skipped: on the text of the two lines [header] and [2025]
    the import throws a TypeError, at [cols[1].padStart]. *)
Theorem parseCSVText_throws_on_short_line :
  forall uuid,
    parseCSVText uuid (lit "header" ++ [LF] ++ lit "2025") = Throw TypeError.
Proof. intros uuid. rewrite parseCSVText_spec. reflexivity. Qed.

(** C4.  The text of the three lines [header], [2025,03,15] and [2026,1]
    has two data lines, and the import emits no record for them: it throws
    at the second one, which has no day field. *)
Theorem parseCSVText_emits_nothing_on_short_line :
  let text := lit "header" ++ [LF] ++ lit "2025,03,15" ++ [LF]
                ++ lit "2026,1" in
  length (data_lines text) = 2 /\
  forall uuid, parseCSVText uuid text = Throw TypeError.
Proof.
  split; [reflexivity|].
  intros uuid. rewrite parseCSVText_spec. reflexivity.
Qed.

End CsvImport.

(* ================================================================= *)
(** ** Dates *)

Section Dates.

Import Csv Store Spec.

Lemma is_digit_range c : is_digit c = true <-> (48 <= c <= 57)%N.
Proof.
  unfold is_digit. rewrite andb_true_iff, !N.leb_le. tauto.
Qed.

Lemma is_digit_not_ws c : is_digit c = true -> is_ws c = false.
Proof.
  intros H. apply is_digit_range in H. unfold is_ws.
  repeat match goal with
  | |- context [(c =? ?k)%N] => destruct (N.eqb_spec c k); [lia|]
  end.
  destruct (N.leb_spec 8192 c); [lia|]. reflexivity.
Qed.

Lemma digit_val_digit c :
  is_digit c = true -> digit_val 10 c = Some (c - 48)%N.
Proof.
  intros H. unfold digit_val. unfold is_digit in H. rewrite H.
  apply andb_true_iff in H. rewrite !N.leb_le in H.
  destruct (N.ltb_spec (c - 48) 10); [reflexivity|lia].
Qed.

Lemma leading_digits_all s :
  forallb is_digit s = true ->
  leading_digits 10 s = map (fun c => (c - 48)%N) s.
Proof.
  induction s as [|c s IH]; simpl; [reflexivity|].
  intros H. apply andb_true_iff in H. destruct H as [Hc Hs].
  rewrite digit_val_digit by exact Hc. rewrite IH by exact Hs. reflexivity.
Qed.

(** [parseInt] of a string of digits is its decimal value. *)
Lemma parseInt_digits s :
  s <> [] -> forallb is_digit s = true -> parseInt s = F (decimal s).
Proof.
  intros Hne Hs. pose proof (leading_digits_all s Hs) as Hld.
  destruct s as [|c s]; [congruence|].
  simpl in Hs. apply andb_true_iff in Hs. destruct Hs as [Hc Hs].
  unfold parseInt. cbn [trimStart]. rewrite (is_digit_not_ws c Hc).
  pose proof (proj1 (is_digit_range c) Hc) as Hr.
  unfold strip_sign.
  destruct (N.eqb_spec c HYPHEN) as [E|_]; [unfold HYPHEN in E; lia|].
  destruct (N.eqb_spec c PLUS) as [E|_]; [unfold PLUS in E; lia|].
  assert (Hhex : strip_hex_prefix (c :: s) = (10%N, c :: s)).
  { destruct s as [|d s]; [reflexivity|].
    simpl in Hs. apply andb_true_iff in Hs. destruct Hs as [Hd _].
    apply is_digit_range in Hd. unfold strip_hex_prefix.
    destruct (N.eqb_spec d 120); [lia|].
    destruct (N.eqb_spec d 88); [lia|].
    rewrite andb_false_r. reflexivity. }
  rewrite Hhex, Hld. reflexivity.
Qed.

Lemma decimal_bounds s :
  forallb is_digit s = true ->
  (0 <= decimal s < 10 ^ Z.of_nat (length s))%Z.
Proof.
  intros Hs. unfold decimal.
  assert (H : Forall (fun d => (d < 10)%N) (map (fun c => (c - 48)%N) s)).
  { apply Forall_forall. intros d Hd. apply in_map_iff in Hd.
    destruct Hd as [c [<- Hc]].
    rewrite forallb_forall in Hs. apply Hs, is_digit_range in Hc. lia. }
  pose proof (digits_value_bounds H) as B.
  rewrite length_map in B. exact B.
Qed.

(** The number a builtin gives for a short string of digits. *)
Lemma F_decimal s :
  forallb is_digit s = true -> length s <= 4 -> F (decimal s) = Fin (decimal s).
Proof.
  intros Hs Hlen. apply F_small.
  pose proof (decimal_bounds s Hs) as [Hlo Hhi].
  assert (10 ^ Z.of_nat (length s) <= 10 ^ 4)%Z
    by (apply Z.pow_le_mono_r; lia).
  assert (10 ^ 4 < 2 ^ 53)%Z by reflexivity.
  lia.
Qed.

(** *** Padding *)

Lemma padStart0_length_ge c : 2 <= length (padStart0 2 c).
Proof. unfold padStart0. rewrite length_app, repeat_length. lia. Qed.

Lemma padStart0_short c :
  (length (padStart0 2 c) =? 2) && forallb is_digit (padStart0 2 c) =
  short_digits c.
Proof.
  unfold short_digits, padStart0.
  destruct c as [|x [|y [|z w]]]; cbn; reflexivity.
Qed.

(** *** The shape of a composed date *)

Lemma date_shape y m d :
  length y = 4 -> length m = 2 ->
  let date := y ++ [HYPHEN] ++ m ++ [HYPHEN] ++ d in
  firstn 4 date = y /\ nth 4 date 0%N = HYPHEN /\
  firstn 2 (skipn 5 date) = m /\ nth 7 date 0%N = HYPHEN /\
  skipn 8 date = d /\ length date = 8 + length d.
Proof.
  intros Hy Hm.
  destruct y as [|y1 [|y2 [|y3 [|y4 [|]]]]]; try discriminate.
  destruct m as [|m1 [|m2 [|]]]; try discriminate.
  cbn. repeat split; reflexivity.
Qed.

Lemma composed_date_valid y c1 c2 :
  four_digits y = true ->
  let date := y ++ [HYPHEN] ++ padStart0 2 c1 ++ [HYPHEN] ++ padStart0 2 c2 in
  valid_date date = short_digits c1 && short_digits c2.
Proof.
  intros Hy date.
  apply andb_true_iff in Hy. destruct Hy as [Hlen Hdig].
  apply Nat.eqb_eq in Hlen.
  rewrite <- !padStart0_short.
  pose proof (padStart0_length_ge c1) as H1.
  pose proof (padStart0_length_ge c2) as H2.
  destruct (Nat.eqb_spec (length (padStart0 2 c1)) 2) as [E1|E1].
  - destruct (date_shape y (padStart0 2 c1) (padStart0 2 c2) Hlen E1)
      as [S1 [S2 [S3 [S4 [S5 S6]]]]].
    fold date in S1, S2, S3, S4, S5, S6.
    unfold valid_date. rewrite S1, S2, S3, S4, S5, S6, Hdig.
    rewrite N.eqb_refl. cbn [andb].
    destruct (forallb is_digit (padStart0 2 c1)); cbn [andb];
      [|rewrite andb_false_r; reflexivity].
    rewrite andb_true_r.
    destruct (Nat.eqb_spec (length (padStart0 2 c2)) 2) as [E2|E2].
    + rewrite E2. reflexivity.
    + destruct (Nat.eqb_spec (8 + length (padStart0 2 c2)) 10); [lia|].
      reflexivity.
  - cbn [andb]. unfold valid_date.
    assert (Hl : length date <> 10).
    { unfold date. rewrite !length_app. simpl. lia. }
    apply Nat.eqb_neq in Hl. rewrite Hl. reflexivity.
Qed.

Lemma composed_date_fields y c1 c2 :
  four_digits y = true ->
  short_digits c1 = true -> short_digits c2 = true ->
  let date := y ++ [HYPHEN] ++ padStart0 2 c1 ++ [HYPHEN] ++ padStart0 2 c2 in
  parseInt y = Fin (decimal (firstn 4 date)) /\
  parseInt (padStart0 2 c1) = Fin (decimal (firstn 2 (skipn 5 date))) /\
  parseInt (padStart0 2 c2) = Fin (decimal (skipn 8 date)).
Proof.
  intros Hy H1 H2 date.
  rewrite <- padStart0_short in H1, H2.
  apply andb_true_iff in Hy, H1, H2.
  destruct Hy as [Hlen Hdig], H1 as [L1 D1], H2 as [L2 D2].
  apply Nat.eqb_eq in Hlen, L1, L2.
  destruct (date_shape y (padStart0 2 c1) (padStart0 2 c2) Hlen L1)
    as [S1 [_ [S3 [_ [S5 _]]]]].
  fold date in S1, S3, S5. rewrite S1, S3, S5.
  repeat split.
  - rewrite parseInt_digits, F_decimal; auto; try lia.
    intros ->. discriminate.
  - rewrite parseInt_digits, F_decimal; auto; try lia.
    intros E. rewrite E in L1. discriminate.
  - rewrite parseInt_digits, F_decimal; auto; try lia.
    intros E. rewrite E in L2. discriminate.
Qed.

(** *** Records of the import *)

Lemma emit_from_In uuid lines : forall k t,
  In t (emit_from uuid k lines) ->
  exists raw id, In raw lines /\ t = item_of id raw.
Proof.
  induction lines as [|raw lines IH]; intros k t; simpl; [tauto|].
  intros [<- | H].
  - exists raw, (uuid k). auto.
  - destruct (IH _ _ H) as [raw' [id [Hin ->]]]. exists raw', id. auto.
Qed.

Lemma data_line_year raw :
  data_line raw = true -> four_digits (nth 0 (fields_of raw) []) = true.
Proof.
  unfold data_line. intros H. apply andb_true_iff in H.
  destruct H as [_ H]. destruct (fields_of raw); exact H.
Qed.

(** *** Records of the entry form *)

Lemma is_digit_not_hyphen c : is_digit c = true -> (c =? HYPHEN)%N = false.
Proof.
  intros H. apply is_digit_range in H. apply N.eqb_neq. unfold HYPHEN. lia.
Qed.

Lemma split_on_digits p : forall cur rest,
  forallb is_digit p = true ->
  split_on HYPHEN cur (p ++ HYPHEN :: rest) =
  (rev cur ++ p) :: split_on HYPHEN [] rest.
Proof.
  induction p as [|c p IH]; intros cur rest Hp; simpl in *.
  - rewrite app_nil_r. reflexivity.
  - apply andb_true_iff in Hp. destruct Hp as [Hc Hp].
    rewrite (is_digit_not_hyphen c Hc), IH by exact Hp.
    simpl. rewrite <- app_assoc. reflexivity.
Qed.

Lemma split_on_digits_end p : forall cur,
  forallb is_digit p = true -> split_on HYPHEN cur p = [rev cur ++ p].
Proof.
  induction p as [|c p IH]; intros cur Hp; simpl in *.
  - rewrite app_nil_r. reflexivity.
  - apply andb_true_iff in Hp. destruct Hp as [Hc Hp].
    rewrite (is_digit_not_hyphen c Hc), IH by exact Hp.
    simpl. rewrite <- app_assoc. reflexivity.
Qed.

(** A valid date is four digits, two digits and two digits, set apart by
    hyphens. *)
Lemma valid_date_parts s :
  valid_date s = true ->
  exists y m d,
    s = y ++ [HYPHEN] ++ m ++ [HYPHEN] ++ d /\
    split HYPHEN s = [y; m; d] /\
    length y = 4 /\ length m = 2 /\ length d = 2 /\
    forallb is_digit y = true /\ forallb is_digit m = true /\
    forallb is_digit d = true.
Proof.
  unfold valid_date. intros H.
  apply andb_true_iff in H. destruct H as [H Hd].
  apply andb_true_iff in H. destruct H as [H H7].
  apply andb_true_iff in H. destruct H as [H Hm].
  apply andb_true_iff in H. destruct H as [H H4].
  apply andb_true_iff in H. destruct H as [Hlen Hy].
  apply Nat.eqb_eq in Hlen. apply N.eqb_eq in H4, H7.
  destruct s as [|a [|b [|c [|d [|h1 [|e [|f [|h2 [|g [|h [|]]]]]]]]]]];
    try discriminate.
  cbn [nth] in H4, H7. subst h1 h2.
  cbn [firstn skipn] in Hy, Hm, Hd.
  exists [a; b; c; d], [e; f], [g; h].
  split; [reflexivity|]. split.
  - unfold split.
    change [a; b; c; d; HYPHEN; e; f; HYPHEN; g; h]
      with ([a; b; c; d] ++ HYPHEN :: [e; f] ++ HYPHEN :: [g; h]).
    rewrite !split_on_digits, split_on_digits_end by assumption.
    reflexivity.
  - repeat split; assumption || reflexivity.
Qed.

(** C2, as the code has it.  A record of the import has the date made of
    the year field, the month field and the day field of its line, the last
    two padded to two characters; the import checks neither, so that the
    date is a valid YYYY-MM-DD string exactly when both have at most two
    characters, all digits, and then the year, month and day of the record
    are the components of its date.  A record entered by hand with a valid
    date has that date, and its year, month and day are the components. *)
Theorem date_fields_consistent (toNumber : jsstring -> Number) :
  (forall s, s <> [] -> forallb is_digit s = true ->
     toNumber s = F (decimal s)) ->
  (forall uuid text items t,
     parseCSVText uuid text = Normal items -> In t items ->
     exists raw,
       In raw (data_lines text) /\
       Tx.date t = line_date raw /\
       valid_date (Tx.date t) =
         short_digits (nth 1 (fields_of raw) []) &&
         short_digits (nth 2 (fields_of raw) []) /\
       (valid_date (Tx.date t) = true -> fields_match_date t)) /\
  (forall uuid form ts,
     valid_date (entry_date form) = true ->
     isNaN (parseInt (entry_amount form)) = false ->
     exists t,
       handleEntrySubmit toNumber uuid form ts = t :: ts /\
       Tx.date t = entry_date form /\ fields_match_date t).
Proof.
  intros Hnum. split.
  - intros uuid text items t Hparse Hin.
    rewrite parseCSVText_spec in Hparse.
    destruct (forallb wide (data_lines text)); [|discriminate].
    injection Hparse as <-.
    destruct (emit_from_In _ _ _ _ Hin) as [raw [id [Hraw ->]]].
    exists raw. split; [exact Hraw|]. split; [reflexivity|].
    assert (Hy : four_digits (nth 0 (fields_of raw) []) = true).
    { apply data_line_year. unfold data_lines in Hraw.
      apply filter_In in Hraw. apply Hraw. }
    cbn [item_of Tx.date]. unfold line_date. split.
    + apply composed_date_valid. exact Hy.
    + intros Hvalid.
      rewrite (composed_date_valid _ _ _ Hy) in Hvalid.
      apply andb_true_iff in Hvalid. destruct Hvalid as [H1 H2].
      destruct (composed_date_fields _ _ _ Hy H1 H2) as [Ey [Em Ed]].
      unfold fields_match_date, item_of, line_date.
      cbn [Tx.year Tx.month Tx.day Tx.date].
      rewrite Ey, Em, Ed. repeat split; reflexivity.
  - intros uuid form ts Hvalid Hamount.
    destruct (valid_date_parts _ Hvalid)
      as [y [m [d [Es [Esplit [Ly [Lm [Ld [Dy [Dm Dd]]]]]]]]]].
    unfold handleEntrySubmit. rewrite Hamount, Esplit.
    assert (Ht : truthy (Some (entry_date form)) = true).
    { rewrite Es. destruct y; [discriminate|reflexivity]. }
    rewrite Ht. cbn [negb orb].
    eexists. split; [reflexivity|]. split; [reflexivity|].
    unfold fields_match_date.
    cbn [Tx.year Tx.month Tx.day Tx.date map nth_error].
    destruct (date_shape y m d Ly Lm) as [S1 [_ [S3 [_ [S5 _]]]]].
    rewrite Es, S1, S3, S5.
    rewrite !Hnum, !F_decimal; auto; try lia;
      intros ->; discriminate.
Qed.

Lemma date_fields_consistent_witness :
  let text := lit "header" ++ [LF] ++ lit "2025,3,15,x,food,,Lunch,1200" in
  let form := {| entry_date := lit "2025-03-16"; entry_type := INCOME;
                 entry_amount := lit "300000";
                 entry_category_med := lit "pay"; entry_detail := [];
                 entry_method := []; entry_value_type := [] |} in
  let toNumber := fun s => F (decimal s) in
  (exists t, parseCSVText uuid0 text = Normal [t] /\
             Tx.date t = lit "2025-03-15" /\ fields_match_date t) /\
  (exists t, handleEntrySubmit toNumber (uuid0 7) form [] = [t] /\
             Tx.date t = lit "2025-03-16" /\ fields_match_date t).
Proof.
  intros text form toNumber.
  destruct (date_fields_consistent toNumber (fun s _ _ => eq_refl))
    as [Hcsv Hform].
  split.
  - match eval vm_compute in (parseCSVText uuid0 text) with
    | Normal [?t] =>
        assert (Hp : parseCSVText uuid0 text = Normal [t])
          by (vm_compute; reflexivity);
        exists t
    end.
    split; [exact Hp|]. split; [vm_compute; reflexivity|].
    destruct (Hcsv uuid0 text _ _ Hp (or_introl eq_refl))
      as [raw [_ [_ [_ Hm]]]].
    apply Hm. vm_compute. reflexivity.
  - destruct (Hform (uuid0 7) form []) as [t [Ht [Hd Hm]]];
      [vm_compute; reflexivity | vm_compute; reflexivity |].
    exists t. split; [exact Ht|]. split; [exact Hd|exact Hm].
Defined.

(** The import does not check the month and the day: the line
    [2025,ab,cd] gives a record of date [2025-ab-cd], with a month and a
    day that are NaN. *)
Lemma parseCSVText_unchecked_date :
  let text := lit "header" ++ [LF] ++ lit "2025,ab,cd" in
  exists t,
    parseCSVText uuid0 text = Normal [t] /\
    Tx.date t = lit "2025-ab-cd" /\
    valid_date (Tx.date t) = false /\
    Tx.month t = Some NaN /\ Tx.day t = Some NaN.
Proof.
  cbv zeta. eexists. split; [vm_compute; reflexivity|].
  repeat split.
Qed.

End Dates.

(* ================================================================= *)
(** ** The list of a day *)

Section DayList.

Import Agg Spec.

(** *** Sorting *)

Lemma stable_insert_perm {A} (cmp : A -> A -> Number) x l :
  Permutation (x :: l) (stable_insert cmp x l).
Proof.
  induction l as [|y l IH]; simpl; [reflexivity|].
  destruct (gt0 (cmp x y)); [|reflexivity].
  rewrite perm_swap. apply perm_skip. exact IH.
Qed.

Lemma stable_sort_perm {A} (cmp : A -> A -> Number) l :
  Permutation l (stable_sort cmp l).
Proof.
  induction l as [|x l IH]; simpl; [reflexivity|].
  rewrite <- stable_insert_perm. apply perm_skip. exact IH.
Qed.

(** The stable sort conforms. *)
Lemma stable_sort_impl : SortImpl (fun A => @stable_sort A).
Proof.
  split; intros; [apply stable_sort_perm|reflexivity].
Qed.

(** In a consistent comparator, after is the converse of before. *)
Lemma consistent_gt_lt {A} (cmp : A -> A -> Number) l a b :
  Consistent cmp l -> In a l -> In b l -> gtCF cmp a b -> ltCF cmp b a.
Proof.
  intros C Ha Hb Hgt. unfold ltCF.
  destruct (lt0 (cmp b a)) eqn:Elt; [reflexivity|exfalso].
  destruct (gt0 (cmp b a)) eqn:Egt.
  - pose proof (cf_gt_trans C Ha Hb Ha Hgt Egt) as Haa.
    destruct (cf_refl C a Ha) as [_ Hr]. unfold gtCF in Haa. congruence.
  - assert (Heq : eqCF cmp b a) by (split; assumption).
    destruct (cf_sym C Hb Ha Heq) as [_ Hr]. unfold gtCF in Hgt.
    congruence.
Qed.

Lemma is_run_sorted {A} (cmp : A -> A -> Number) l :
  Consistent cmp l -> is_run cmp l = true -> stable_sort cmp l = l.
Proof.
  induction l as [|a l IH]; intros C Hrun; [reflexivity|].
  assert (C' : Consistent cmp l).
  { destruct C as [c1 c2 c3 c4 c5]. split.
    - intros x Hx. apply c1. right. exact Hx.
    - intros x y Hx Hy. apply c2; right; assumption.
    - intros x y z Hx Hy Hz. apply (c3 x y z); right; assumption.
    - intros x y z Hx Hy Hz. apply (c4 x y z); right; assumption.
    - intros x y z Hx Hy Hz. apply (c5 x y z); right; assumption. }
  cbn [stable_sort]. cbn [is_run] in Hrun.
  destruct l as [|b l']; [reflexivity|].
  apply andb_true_iff in Hrun. destruct Hrun as [Hab Hrun].
  rewrite (IH C' Hrun). cbn [stable_insert].
  destruct (gt0 (cmp a b)) eqn:Egt; [exfalso|reflexivity].
  assert (Hlt : ltCF cmp b a).
  { apply (consistent_gt_lt C (a := a) (b := b)); simpl; auto. }
  unfold ltCF in Hlt. rewrite Hlt in Hab. discriminate.
Qed.

(** The run-detecting sort conforms as well. *)
Lemma run_sort_impl : SortImpl run_sort.
Proof.
  split; intros A cmp l; unfold run_sort.
  - destruct (is_run cmp l); [reflexivity|apply stable_sort_perm].
  - intros C. destruct (is_run cmp l) eqn:E; [|reflexivity].
    symmetry. apply is_run_sorted; assumption.
Qed.

(** C9.  With a record of a third kind the compare function of the day
    list is not a consistent comparator: an expense and a transfer are each
    after the other.  The order of the list is then left to the
    implementation of [sort], and a conforming one that looks for a run
    first leaves expenses of 100, a transfer and an expense of 200 as they
    are: the expenses are not by amount descending. *)
Theorem dayCompare_third_kind :
  let day := [cheap; transfer; dear] in
  gtCF dayCompare cheap transfer /\ gtCF dayCompare transfer cheap /\
  ~ Consistent dayCompare day /\
  SortImpl run_sort /\
  openDayDetail run_sort day 2025 2 15 = [cheap; transfer; dear].
Proof.
  cbv zeta.
  assert (H1 : gtCF dayCompare cheap transfer) by reflexivity.
  assert (H2 : gtCF dayCompare transfer cheap) by reflexivity.
  split; [exact H1|]. split; [exact H2|]. split; [|split].
  - intros C.
    assert (Hlt : ltCF dayCompare transfer cheap).
    { apply (consistent_gt_lt C (a := cheap) (b := transfer));
        simpl; auto. }
    unfold ltCF in Hlt. discriminate.
  - exact run_sort_impl.
  - reflexivity.
Qed.

(** *** The order on numbers *)

Lemma gt0_nsub x y :
  isNaN x = false -> isNaN y = false -> gt0 (nsub x y) = negb (nleb x y).
Proof.
  destruct x as [|[|]|x], y as [|[|]|y]; simpl; try discriminate;
    try reflexivity.
  intros _ _. rewrite F_gt0.
  destruct (Z.ltb_spec 0 (x + - y)), (Z.leb_spec x y); try reflexivity; lia.
Qed.

Lemma lt0_nsub x y :
  isNaN x = false -> isNaN y = false -> lt0 (nsub x y) = negb (nleb y x).
Proof.
  destruct x as [|[|]|x], y as [|[|]|y]; simpl; try discriminate;
    try reflexivity.
  intros _ _. rewrite F_lt0.
  destruct (Z.ltb_spec (x + - y) 0), (Z.leb_spec y x); try reflexivity; lia.
Qed.

Lemma nleb_total x y :
  isNaN x = false -> isNaN y = false -> nleb x y = true \/ nleb y x = true.
Proof.
  destruct x as [|[|]|x], y as [|[|]|y]; simpl; try discriminate; auto.
  intros _ _. destruct (Z.leb_spec x y), (Z.leb_spec y x); auto; lia.
Qed.

Lemma nleb_trans x y z :
  isNaN y = false ->
  nleb x y = true -> nleb y z = true -> nleb x z = true.
Proof.
  destruct x as [|[|]|x], y as [|[|]|y], z as [|[|]|z]; simpl;
    try discriminate; auto.
  intros _ H1 H2. apply Z.leb_le in H1, H2. apply Z.leb_le. lia.
Qed.

(** *** Sorting by a total preorder *)

Section Preorder.

Variable A : Type.
Variable cmp : A -> A -> Number.
Variable leq : A -> A -> bool.
Variable P : A -> Prop.

Hypothesis cmp_signs : forall a b, P a -> P b ->
  gt0 (cmp a b) = negb (leq a b) /\ lt0 (cmp a b) = negb (leq b a).
Hypothesis leq_total : forall a b, P a -> P b ->
  leq a b = true \/ leq b a = true.
Hypothesis leq_trans : forall a b c, P a -> P b -> P c ->
  leq a b = true -> leq b c = true -> leq a c = true.

Lemma preorder_consistent l : Forall P l -> Consistent cmp l.
Proof.
  intros Hl. rewrite Forall_forall in Hl.
  assert (Heq : forall a b, P a -> P b ->
            (eqCF cmp a b <-> leq a b = true /\ leq b a = true)).
  { intros a b Ha Hb. unfold eqCF.
    destruct (cmp_signs Ha Hb) as [-> ->].
    rewrite !negb_false_iff. tauto. }
  assert (Hlt : forall a b, P a -> P b ->
            (ltCF cmp a b <-> leq b a = false)).
  { intros a b Ha Hb. unfold ltCF.
    destruct (cmp_signs Ha Hb) as [_ ->]. apply negb_true_iff. }
  assert (Hgt : forall a b, P a -> P b ->
            (gtCF cmp a b <-> leq a b = false)).
  { intros a b Ha Hb. unfold gtCF.
    destruct (cmp_signs Ha Hb) as [-> _]. apply negb_true_iff. }
  split.
  - intros a Ha. apply Heq; auto.
    destruct (leq_total (Hl _ Ha) (Hl _ Ha)); auto.
  - intros a b Ha Hb H. apply Heq in H; auto. apply Heq; auto. tauto.
  - intros a b c Ha Hb Hc H1 H2.
    apply Heq in H1; auto. apply Heq in H2; auto. apply Heq; auto.
    destruct H1, H2. split; eapply leq_trans; eauto.
  - intros a b c Ha Hb Hc H1 H2.
    apply Hlt in H1; auto. apply Hlt in H2; auto. apply Hlt; auto.
    destruct (leq c a) eqn:E; [|reflexivity].
    destruct (leq_total (Hl _ Ha) (Hl _ Hb)) as [Hab|Hba]; [|congruence].
    rewrite (leq_trans (Hl _ Hc) (Hl _ Ha) (Hl _ Hb) E Hab) in H2.
    discriminate.
  - intros a b c Ha Hb Hc H1 H2.
    apply Hgt in H1; auto. apply Hgt in H2; auto. apply Hgt; auto.
    destruct (leq a c) eqn:E; [|reflexivity].
    destruct (leq_total (Hl _ Hb) (Hl _ Hc)) as [Hbc|Hcb]; [congruence|].
    rewrite (leq_trans (Hl _ Ha) (Hl _ Hc) (Hl _ Hb) E Hcb) in H1.
    discriminate.
Qed.

Lemma stable_insert_sorted x l :
  P x -> Forall P l ->
  StronglySorted (fun a b => leq a b = true) l ->
  StronglySorted (fun a b => leq a b = true) (stable_insert cmp x l).
Proof.
  intros Hx Hl Hs. induction Hs as [|y l Hs IH Hy]; simpl.
  - repeat constructor.
  - inversion Hl as [|? ? Py Pl]; subst.
    destruct (cmp_signs Hx Py) as [Hgt _]. rewrite Hgt.
    destruct (leq x y) eqn:E; simpl.
    + constructor; [constructor; assumption|].
      constructor; [exact E|].
      rewrite Forall_forall in *. intros z Hz.
      eapply leq_trans; eauto.
    + constructor; [apply IH; assumption|].
      apply (Permutation_Forall (stable_insert_perm cmp x l)).
      constructor; [|exact Hy].
      destruct (leq_total Hx Py); congruence.
Qed.

Lemma stable_sort_sorted l :
  Forall P l ->
  StronglySorted (fun a b => leq a b = true) (stable_sort cmp l).
Proof.
  induction l as [|x l IH]; intros Hl; simpl; [constructor|].
  inversion Hl; subst.
  apply stable_insert_sorted; auto.
  apply (Permutation_Forall (stable_sort_perm cmp l)). assumption.
Qed.

End Preorder.

(** *** The compare function on incomes and expenses *)

Lemma field_eqb_eq a b : field_eqb a b = true <-> a = b.
Proof.
  destruct a as [x|], b as [y|]; simpl; try (split; congruence).
  rewrite str_eqb_eq. split; congruence.
Qed.

Lemma two_kinds_cases t :
  two_kinds t = true ->
  (Tx.type t = Some INCOME \/ Tx.type t = Some EXPENSE) /\
  isNaN (Tx.amount t) = false.
Proof.
  unfold two_kinds, type_is. intros H.
  apply andb_true_iff in H. destruct H as [Hk Hn].
  apply negb_true_iff in Hn. split; [|exact Hn].
  apply orb_true_iff in Hk. rewrite !field_eqb_eq in Hk. exact Hk.
Qed.

Lemma dayCompare_signs a b :
  two_kinds a = true -> two_kinds b = true ->
  gt0 (dayCompare a b) = negb (day_leq a b) /\
  lt0 (dayCompare a b) = negb (day_leq b a).
Proof.
  intros Ha Hb.
  destruct (two_kinds_cases a Ha) as [Ta Na].
  destruct (two_kinds_cases b Hb) as [Tb Nb].
  unfold dayCompare, day_leq, type_is.
  destruct Ta as [Ta|Ta], Tb as [Tb|Tb]; rewrite Ta, Tb;
    repeat match goal with
    | |- context [field_eqb (Some ?x) (Some ?y)] =>
        let v := eval vm_compute in (field_eqb (Some x) (Some y)) in
        change (field_eqb (Some x) (Some y)) with v
    end;
    cbn [negb]; try (split; reflexivity);
    (split; [apply gt0_nsub | apply lt0_nsub]; assumption).
Qed.

Lemma day_leq_total a b :
  two_kinds a = true -> two_kinds b = true ->
  day_leq a b = true \/ day_leq b a = true.
Proof.
  intros Ha Hb.
  destruct (two_kinds_cases a Ha) as [_ Na].
  destruct (two_kinds_cases b Hb) as [_ Nb].
  unfold day_leq.
  destruct (type_is INCOME a), (type_is INCOME b); auto;
    destruct (nleb_total (Tx.amount a) (Tx.amount b) Na Nb); auto.
Qed.

Lemma day_leq_trans a b c :
  two_kinds a = true -> two_kinds b = true -> two_kinds c = true ->
  day_leq a b = true -> day_leq b c = true -> day_leq a c = true.
Proof.
  intros Ha Hb Hc.
  destruct (two_kinds_cases b Hb) as [_ Nb].
  unfold day_leq.
  destruct (type_is INCOME a), (type_is INCOME b), (type_is INCOME c);
    try discriminate; auto;
    intros H1 H2; eapply nleb_trans; eauto.
Qed.

(** X20.  The list of a day holding incomes and expenses only: whatever
    the implementation of [sort], it is the records of that date, the
    incomes first, and the records of one kind by amount descending. *)
Theorem dayData_sorted
    (sort : forall A, (A -> A -> Number) -> list A -> list A)
    (transactions : list Transaction) (dateStr : jsstring) :
  SortImpl sort ->
  let day := filter (fun t => str_eqb (Tx.date t) dateStr) transactions in
  Forall (fun t => two_kinds t = true) day ->
  let r := dayData sort transactions dateStr in
  Permutation day r /\
  (forall t, In t r <-> In t transactions /\ Tx.date t = dateStr) /\
  StronglySorted (fun a b => day_leq a b = true) r.
Proof.
  intros Hsort day Hday r.
  assert (Hperm : Permutation day r) by apply (sort_perm Hsort).
  split; [exact Hperm|]. split.
  - intros t. rewrite <- (Permutation_in' eq_refl Hperm).
    unfold day. rewrite filter_In, str_eqb_eq. reflexivity.
  - unfold r, dayData. fold day.
    rewrite (sort_consistent Hsort).
    + apply stable_sort_sorted with (P := fun t => two_kinds t = true);
        [ exact dayCompare_signs | exact day_leq_total
        | exact day_leq_trans | exact Hday ].
    + apply preorder_consistent
        with (leq := day_leq) (P := fun t => two_kinds t = true);
        [ exact dayCompare_signs | exact day_leq_total
        | exact day_leq_trans | exact Hday ].
Qed.

Lemma dayData_sorted_witness :
  openDayDetail (fun A => @stable_sort A) [train; salary; lunch] 2025 2 15
    = [lunch; train] /\
  StronglySorted (fun a b => day_leq a b = true)
    (openDayDetail (fun A => @stable_sort A) [train; salary; lunch] 2025 2 15).
Proof.
  split; [reflexivity|].
  apply (dayData_sorted [train; salary; lunch] (dateStr 2025 2 15)
           stable_sort_impl).
  repeat constructor.
Defined.

End DayList.

(* ================================================================= *)
(** * Further properties *)

(** ** Rows and fields *)

Section Rows.

Import Csv Spec Notions.

Lemma join_snoc sep l x :
  l <> [] -> join sep (l ++ [x]) = join sep l ++ sep :: x.
Proof.
  induction l as [|y l IH]; intros Hne; [congruence|].
  destruct l as [|z l]; [reflexivity|].
  change (join sep ((y :: z :: l) ++ [x]))
    with (y ++ sep :: join sep ((z :: l) ++ [x])).
  rewrite IH by discriminate.
  change (join sep (y :: z :: l)) with (y ++ sep :: join sep (z :: l)).
  rewrite <- app_assoc. reflexivity.
Qed.

Lemma join_snoc_char sep l x c :
  join sep (l ++ [x ++ [c]]) = join sep (l ++ [x]) ++ [c].
Proof.
  destruct l as [|y l]; [reflexivity|].
  rewrite !join_snoc by discriminate.
  rewrite <- app_assoc. reflexivity.
Qed.

(** X1.  The fields of a line, put together again with commas, are the
    line without its quote characters: the tokenizer drops nothing else
    and adds nothing. *)
Theorem splitCSVLine_join (line : jsstring) :
  join COMMA (splitCSVLine line) = unquote line.
Proof.
  unfold splitCSVLine.
  induction line as [|c line IH] using rev_ind; [reflexivity|].
  rewrite fold_left_app. cbn [fold_left].
  set (st := fold_left split_step line split_init) in *.
  rewrite unquote_app. unfold split_step.
  destruct (N.eqb_spec c DQUOTE) as [->|Hq].
  - cbn [result current]. rewrite IH. cbn. rewrite app_nil_r. reflexivity.
  - assert (Huq : unquote [c] = [c]).
    { unfold unquote. simpl. destruct (N.eqb_spec c DQUOTE); [congruence|].
      reflexivity. }
    rewrite Huq.
    destruct ((c =? COMMA)%N && negb (inQuote st)) eqn:Hsep;
      cbn [result current].
    + apply andb_true_iff in Hsep. destruct Hsep as [Hc _].
      apply N.eqb_eq in Hc. subst c.
      rewrite join_snoc by (intros E; apply app_eq_nil in E;
                            destruct E; discriminate).
      f_equal. exact IH.
    + rewrite join_snoc_char. f_equal. exact IH.
Qed.

Lemma fold_quoted f : forall res cur,
  has_char DQUOTE f = false ->
  fold_left split_step f {| result := res; current := cur; inQuote := true |}
  = {| result := res; current := cur ++ f; inQuote := true |}.
Proof.
  induction f as [|c f IH]; intros res cur Hf; simpl in *.
  - rewrite app_nil_r. reflexivity.
  - apply orb_false_iff in Hf. destruct Hf as [Hc Hf].
    unfold split_step at 2. rewrite Hc. cbn [inQuote negb result current].
    rewrite andb_false_r, IH by exact Hf.
    rewrite <- app_assoc. reflexivity.
Qed.

Lemma fold_plain f : forall res cur,
  has_char DQUOTE f = false -> has_char COMMA f = false ->
  fold_left split_step f {| result := res; current := cur; inQuote := false |}
  = {| result := res; current := cur ++ f; inQuote := false |}.
Proof.
  induction f as [|c f IH]; intros res cur Hq Hc; simpl in *.
  - rewrite app_nil_r. reflexivity.
  - apply orb_false_iff in Hq, Hc. destruct Hq as [Hq1 Hq], Hc as [Hc1 Hc].
    unfold split_step at 2. rewrite Hq1, Hc1. cbn [inQuote andb result current].
    rewrite IH by assumption.
    rewrite <- app_assoc. reflexivity.
Qed.

Lemma fold_encoded f res :
  has_char DQUOTE f = false ->
  fold_left split_step (encode_field f)
    {| result := res; current := []; inQuote := false |}
  = {| result := res; current := f; inQuote := false |}.
Proof.
  intros Hq. unfold encode_field.
  destruct (has_char COMMA f) eqn:Hc.
  - cbn [fold_left]. unfold split_step at 2.
    change (DQUOTE =? DQUOTE)%N with true. cbn [inQuote negb result current].
    rewrite fold_left_app, fold_quoted by exact Hq.
    reflexivity.
  - rewrite fold_plain by assumption. reflexivity.
Qed.

Lemma fold_row fields : forall res,
  fields <> [] ->
  Forall (fun f => has_char DQUOTE f = false) fields ->
  fold_left split_step (join COMMA (map encode_field fields))
    {| result := res; current := []; inQuote := false |}
  = {| result := res ++ removelast fields; current := last fields [];
       inQuote := false |}.
Proof.
  induction fields as [|f fields IH]; intros res Hne Hq; [congruence|].
  inversion Hq as [|? ? Hf Hq']; subst.
  destruct fields as [|g fields].
  - cbn [map join removelast last]. rewrite fold_encoded by exact Hf.
    rewrite app_nil_r. reflexivity.
  - change (join COMMA (map encode_field (f :: g :: fields)))
      with (encode_field f ++ COMMA :: join COMMA (map encode_field (g :: fields))).
    rewrite fold_left_app, fold_encoded by exact Hf.
    cbn [fold_left]. unfold split_step at 2.
    change (COMMA =? DQUOTE)%N with false.
    change (COMMA =? COMMA)%N with true.
    cbn [inQuote negb andb result current].
    rewrite IH by (discriminate || assumption).
    change (removelast (f :: g :: fields)) with (f :: removelast (g :: fields)).
    change (last (f :: g :: fields) []) with (last (g :: fields) []).
    rewrite <- app_assoc. reflexivity.
Qed.

(** X2.  A row written the usual way (fields set apart by commas, a field
    in quotes when it holds a comma) is read back as it was, whenever no
    field holds a quote character. *)
Theorem splitCSVLine_row (fields : list jsstring) :
  fields <> [] ->
  Forall (fun f => has_char DQUOTE f = false) fields ->
  splitCSVLine (join COMMA (map encode_field fields)) = fields.
Proof.
  intros Hne Hq. unfold splitCSVLine.
  change split_init
    with {| result := []; current := []; inQuote := false |}.
  rewrite fold_row by assumption. cbn [result current app].
  symmetry. apply app_removelast_last. exact Hne.
Qed.

Lemma splitCSVLine_row_witness :
  splitCSVLine
    (join COMMA (map encode_field [lit "2025"; lit "Lunch, late"; lit "1,200"]))
  = [lit "2025"; lit "Lunch, late"; lit "1,200"].
Proof.
  apply splitCSVLine_row; [discriminate|].
  repeat constructor.
Defined.

End Rows.

(* ================================================================= *)
(** ** Markup *)

Section Markup.

Import Html Notions.

Lemma entity_cases c :
  (c = AMP /\ entity c = Some (lit "&amp;")) \/
  (c = LT /\ entity c = Some (lit "&lt;")) \/
  (c = GT /\ entity c = Some (lit "&gt;")) \/
  (c = DQUOTE /\ entity c = Some (lit "&quot;")) \/
  (c = SQUOTE /\ entity c = Some (lit "&#39;")) \/
  (entity c = None /\ c <> AMP /\ c <> LT /\ c <> GT /\ c <> DQUOTE /\
   c <> SQUOTE).
Proof.
  unfold entity.
  destruct (N.eqb_spec c AMP); [subst; auto|].
  destruct (N.eqb_spec c LT); [subst; auto 6|].
  destruct (N.eqb_spec c GT); [subst; auto 6|].
  destruct (N.eqb_spec c DQUOTE); [subst; auto 8|].
  destruct (N.eqb_spec c SQUOTE); [subst; auto 8|].
  repeat right. auto 8.
Qed.

Lemma replace_special_cons c s :
  replace_special (c :: s) =
  match entity c with Some e => e | None => [c] end ++ replace_special s.
Proof. reflexivity. Qed.

(** X3.  What [escapeHTML] returns holds no angle bracket and no quote
    character of either kind, so that it cannot open or close a tag or an
    attribute value. *)
Theorem escapeHTML_no_markup (s : jsstring) :
  Forall (fun c => c <> LT /\ c <> GT /\ c <> DQUOTE /\ c <> SQUOTE)
    (replace_special s).
Proof.
  induction s as [|c s IH]; [constructor|].
  rewrite replace_special_cons. apply Forall_app. split; [|exact IH].
  destruct (entity_cases c)
    as [[-> ->]|[[-> ->]|[[-> ->]|[[-> ->]|[[-> ->]|[-> H]]]]]];
    try (repeat constructor; discriminate).
  constructor; [tauto|constructor].
Qed.

Lemma startsWith_app p r : startsWith (p ++ r) p = true.
Proof.
  induction p as [|a p IH]; [destruct r; reflexivity|].
  simpl. rewrite N.eqb_refl. exact IH.
Qed.

Lemma startsWith_nil s : startsWith s [] = true.
Proof. destruct s; reflexivity. Qed.

Lemma decode_escape s : forall n,
  length (replace_special s) <= n -> decode n (replace_special s) = s.
Proof.
  induction s as [|c s IH]; intros n Hn.
  - destruct n; reflexivity.
  - rewrite replace_special_cons in *.
    destruct (entity_cases c)
      as [[-> E]|[[-> E]|[[-> E]|[[-> E]|[[-> E]|[E H]]]]]];
      rewrite E in *; rewrite length_app in Hn;
      (destruct n as [|n]; [simpl in Hn; lia|]).
    1-5: cbn; rewrite startsWith_nil; f_equal; apply IH; cbn in Hn; lia.
    destruct H as [H1 [H2 [H3 [H4 H5]]]].
    cbn [app decode startsWith lit].
    assert (Ha : (N_of_ascii "&" =? c)%N = false).
    { apply N.eqb_neq. intros <-. apply H1. reflexivity. }
    rewrite Ha. cbn [andb]. f_equal. apply IH. simpl in Hn. lia.
Qed.

(** X4.  Escaping loses nothing: decoding the five entities gives the
    string back, and two different strings are never escaped to the same
    one. *)
Theorem escapeHTML_decodes :
  (forall s, unescape (replace_special s) = s) /\
  (forall a b, escapeHTML a = escapeHTML b -> a = b).
Proof.
  assert (H : forall s, unescape (replace_special s) = s).
  { intros s. apply decode_escape. apply Nat.le_refl. }
  split; [exact H|].
  intros [a|] [b|]; simpl; try congruence.
Qed.

Lemma replace_special_length s :
  length s <= length (replace_special s) /\
  (length (replace_special s) = length s -> existsb special s = false).
Proof.
  induction s as [|c s [IH1 IH2]]; [split; [apply Nat.le_refl|reflexivity]|].
  rewrite replace_special_cons, length_app.
  cbn [existsb length]. unfold special at 1.
  destruct (entity_cases c)
    as [[-> E]|[[-> E]|[[-> E]|[[-> E]|[[-> E]|[E H]]]]]];
    rewrite E; cbn [length lit]; (split; [lia|]); intros Hl;
    try (exfalso; lia).
  apply IH2. simpl in Hl. lia.
Qed.

Lemma replace_special_plain s :
  existsb special s = false -> replace_special s = s.
Proof.
  induction s as [|c s IH]; [reflexivity|].
  cbn [existsb]. intros H. apply orb_false_iff in H. destruct H as [Hc Hs].
  rewrite replace_special_cons, IH by exact Hs.
  unfold special in Hc. destruct (entity c); [discriminate|reflexivity].
Qed.

Lemma replace_special_keeps_special s :
  existsb special s = true -> existsb special (replace_special s) = true.
Proof.
  induction s as [|c s IH]; [discriminate|].
  cbn [existsb]. rewrite replace_special_cons, existsb_app.
  intros H. apply orb_true_iff in H. apply orb_true_iff.
  destruct H as [Hc|Hs]; [left|right; apply IH, Hs].
  unfold special in Hc.
  destruct (entity_cases c)
    as [[-> E]|[[-> E]|[[-> E]|[[-> E]|[[-> E]|[E H]]]]]];
    rewrite E in *; try reflexivity. discriminate.
Qed.

(** X5.  [escapeHTML] leaves a string as it is exactly when the string
    holds none of the five characters, and escaping a second time changes
    the result in every other case: the function is to be applied once. *)
Theorem escapeHTML_once (s : jsstring) :
  (replace_special s = s <-> existsb special s = false) /\
  (replace_special (replace_special s) = replace_special s <->
   existsb special s = false).
Proof.
  assert (H : forall x, replace_special x = x <-> existsb special x = false).
  { intros x. split; [|apply replace_special_plain].
    intros E. apply (replace_special_length x). rewrite E. reflexivity. }
  split; [apply H|]. split.
  - intros E. apply H in E.
    destruct (existsb special s) eqn:Es; [|reflexivity].
    rewrite (replace_special_keeps_special s Es) in E. discriminate.
  - intros Es. rewrite (replace_special_plain s Es).
    apply replace_special_plain, Es.
Qed.

End Markup.

(* ================================================================= *)
(** ** The store as a whole *)

Section StoreOps.

Import Csv Store Spec.

Lemma emit_from_ids uuid lines : forall k,
  map Tx.id (emit_from uuid k lines) = map uuid (seq k (length lines)).
Proof.
  induction lines as [|raw lines IH]; intros k; [reflexivity|].
  simpl. rewrite IH. reflexivity.
Qed.

Lemma NoDup_filter {A} (f : A -> bool) (g : A -> jsstring) l :
  NoDup (map g l) -> NoDup (map g (filter f l)).
Proof.
  induction l as [|x l IH]; simpl; intros H; [constructor|].
  inversion H as [|? ? Hx Hl]; subst.
  destruct (f x); simpl; [constructor|]; auto.
  intros Hin. apply Hx. apply in_map_iff in Hin.
  destruct Hin as [y [Hy Hin]]. apply filter_In in Hin.
  apply in_map_iff. exists y. tauto.
Qed.

Lemma NoDup_map_injective {A B} (f : A -> B) l :
  (forall x y, f x = f y -> x = y) -> NoDup l -> NoDup (map f l).
Proof.
  intros Hinj. induction 1 as [|x l Hx Hl IH]; simpl; constructor; auto.
  intros Hin. apply in_map_iff in Hin. destruct Hin as [y [Hy Hin]].
  apply Hinj in Hy. subst y. contradiction.
Qed.

(** X6.  The ids of the store stay unique: deleting keeps them so, an
    entry does when its new id is not in the store, and an import does,
    whether it replaces the store or fails, when [randomUUID] never gives
    the same id twice. *)
Theorem store_ids_unique (transactions : list Transaction) :
  NoDup (map Tx.id transactions) ->
  (forall confirmed id,
     NoDup (map Tx.id (deleteTransaction confirmed id transactions))) /\
  (forall toNumber uuid form,
     ~ In uuid (map Tx.id transactions) ->
     NoDup (map Tx.id (handleEntrySubmit toNumber uuid form transactions))) /\
  (forall uuid text,
     (forall i j : nat, uuid i = uuid j -> i = j) ->
     NoDup (map Tx.id (handleFileSelect uuid text transactions))).
Proof.
  intros Hnd. repeat split.
  - intros confirmed id. unfold deleteTransaction.
    destruct confirmed; simpl; [apply NoDup_filter|]; exact Hnd.
  - intros toNumber uuid form Hfresh. unfold handleEntrySubmit.
    destruct (negb (truthy (Some (entry_date form))) ||
              isNaN (parseInt (entry_amount form))); [exact Hnd|].
    simpl. constructor; assumption.
  - intros uuid text Hinj. unfold handleFileSelect.
    rewrite parseCSVText_spec.
    destruct (forallb wide (data_lines text)); [|exact Hnd].
    rewrite emit_from_ids.
    apply NoDup_map_injective; [exact Hinj|apply seq_NoDup].
Qed.

Lemma store_ids_unique_witness :
  NoDup (map Tx.id
           (handleFileSelect (fun k => repeat ZERO k)
              (lit "header" ++ [LF] ++ lit "2025,3,15" ++ [LF]
                 ++ lit "2025,3,16")
              [lunch; salary])) /\
  NoDup (map Tx.id (deleteTransaction true (lit "t1") [lunch; salary])).
Proof.
  assert (Hnd : NoDup (map Tx.id [lunch; salary])).
  { repeat constructor; simpl; intuition discriminate. }
  destruct (store_ids_unique [lunch; salary] Hnd) as [Hdel [_ Himp]].
  split; [|apply Hdel].
  apply Himp. intros i j H.
  apply (f_equal (@length char)) in H. rewrite !repeat_length in H.
  exact H.
Defined.

(** X7.  Deleting the record that was just entered gives the store back
    as it was, whether the entry was taken or refused, when the id of the
    entry was not in the store. *)
Theorem delete_undoes_entry toNumber uuid form
    (transactions : list Transaction) :
  ~ In uuid (map Tx.id transactions) ->
  deleteTransaction true uuid
    (handleEntrySubmit toNumber uuid form transactions) = transactions.
Proof.
  intros Hfresh. unfold handleEntrySubmit.
  destruct (negb (truthy (Some (entry_date form))) ||
            isNaN (parseInt (entry_amount form))).
  - apply delete_absent. exact Hfresh.
  - unfold deleteTransaction. cbn [negb filter Tx.id].
    rewrite str_eqb_refl. cbn [negb].
    apply (delete_absent uuid transactions Hfresh).
Qed.

Lemma delete_undoes_entry_witness :
  let form := {| entry_date := lit "2025-03-16"; entry_type := INCOME;
                 entry_amount := lit "300000";
                 entry_category_med := lit "pay"; entry_detail := [];
                 entry_method := []; entry_value_type := [] |} in
  deleteTransaction true (lit "t9")
    (handleEntrySubmit (fun s => F (decimal s)) (lit "t9") form [lunch])
  = [lunch].
Proof.
  apply delete_undoes_entry. simpl. intuition discriminate.
Defined.

End StoreOps.

(* ================================================================= *)
(** ** Amounts with grouping *)

Section Grouping.

Import Csv Spec Notions.

Lemma trimStart_digits s : forallb is_digit s = true -> trimStart s = s.
Proof.
  destruct s as [|c s]; [reflexivity|]. simpl. intros H.
  apply andb_true_iff in H. destruct H as [Hc _].
  rewrite (is_digit_not_ws c Hc). reflexivity.
Qed.

Lemma trim_digits s : forallb is_digit s = true -> trim s = s.
Proof.
  intros H. unfold trim, trimEnd.
  rewrite (trimStart_digits s H), trimStart_digits, rev_involutive;
    [reflexivity|].
  rewrite forallb_forall in *. intros c Hc. apply H, in_rev, Hc.
Qed.

Lemma strip_grouped s :
  forallb grouped_digit s = true ->
  strip_quotes_commas s = filter is_digit s.
Proof.
  intros H. unfold strip_quotes_commas. apply filter_ext_in.
  intros c Hc. rewrite forallb_forall in H. specialize (H c Hc).
  unfold grouped_digit in H.
  destruct (is_digit c) eqn:Ed.
  - apply is_digit_range in Ed. unfold DQUOTE, SQUOTE, COMMA.
    destruct (N.eqb_spec c 34), (N.eqb_spec c 39), (N.eqb_spec c 44);
      try lia; reflexivity.
  - destruct (c =? DQUOTE)%N, (c =? SQUOTE)%N, (c =? COMMA)%N;
      simpl in *; congruence.
Qed.

(** X8.  Grouping commas and quotes around an amount do not count: a
    field made of digits, commas and quote characters, with 1 to 15
    digits, has the amount its digits spell. *)
Theorem parseAmount_grouped (s : jsstring) :
  forallb grouped_digit s = true ->
  filter is_digit s <> [] ->
  length (filter is_digit s) <= 15 ->
  parseAmount (Some s) = Fin (decimal (filter is_digit s)).
Proof.
  intros Hg Hne Hlen.
  assert (Hd : forallb is_digit (filter is_digit s) = true).
  { apply forallb_forall. intros c Hc. apply filter_In in Hc. tauto. }
  destruct s as [|c s]; [simpl in Hne; congruence|].
  unfold parseAmount. rewrite (strip_grouped _ Hg), (trim_digits _ Hd).
  rewrite (parseInt_digits Hne Hd).
  rewrite F_small.
  - destruct (decimal (filter is_digit (c :: s))); reflexivity.
  - pose proof (decimal_bounds _ Hd) as [Hlo Hhi].
    assert (10 ^ Z.of_nat (length (filter is_digit (c :: s))) <= 10 ^ 15)%Z
      by (apply Z.pow_le_mono_r; lia).
    assert (10 ^ 15 < 2 ^ 53)%Z by reflexivity.
    lia.
Qed.

Lemma parseAmount_grouped_witness :
  parseAmount (Some ([DQUOTE] ++ lit "1,200,000" ++ [DQUOTE])) = Fin 1200000.
Proof.
  apply (parseAmount_grouped ([DQUOTE] ++ lit "1,200,000" ++ [DQUOTE]));
    [reflexivity | discriminate | simpl; lia].
Defined.

End Grouping.

(* ================================================================= *)
(** ** Lines of the file *)

Section Lines.

Import Csv Spec Notions.

Lemma split_lines_header h : forall cur rest,
  has_char LF h = false ->
  exists first,
    split_lines_from cur (h ++ LF :: rest) = first :: split_lines rest.
Proof.
  induction h as [|c h IH]; intros cur rest Hh.
  - exists (rev cur). reflexivity.
  - cbn [has_char existsb] in Hh. apply orb_false_iff in Hh.
    destruct Hh as [Hc Hh]. cbn [app split_lines_from]. rewrite Hc.
    destruct h as [|d h].
    + cbn [app]. destruct ((c =? CR)%N && (LF =? LF)%N).
      * exists (rev cur). reflexivity.
      * apply (IH (c :: cur) rest Hh).
    + cbn [app]. cbn [has_char existsb] in Hh.
      apply orb_false_iff in Hh. destruct Hh as [Hd Hh'].
      rewrite Hd, andb_false_r.
      apply (IH (c :: cur) rest). cbn [has_char existsb].
      rewrite Hd. exact Hh'.
Qed.

Lemma split_lines_single h : forall cur,
  has_char LF h = false -> exists only, split_lines_from cur h = [only].
Proof.
  induction h as [|c h IH]; intros cur Hh.
  - exists (rev cur). reflexivity.
  - cbn [has_char existsb] in Hh. apply orb_false_iff in Hh.
    destruct Hh as [Hc Hh]. cbn [split_lines_from]. rewrite Hc.
    destruct h as [|d h]; [apply (IH (c :: cur) Hh)|].
    cbn [has_char existsb] in Hh. apply orb_false_iff in Hh.
    destruct Hh as [Hd Hh']. rewrite Hd, andb_false_r.
    apply (IH (c :: cur)). cbn [has_char existsb]. rewrite Hd. exact Hh'.
Qed.

Lemma strip_bom_no_LF h : has_char LF h = false -> has_char LF (strip_bom h) = false.
Proof.
  destruct h as [|c h]; [reflexivity|]. simpl.
  destruct (c =? BOM)%N; simpl; [|tauto].
  intros H. apply orb_false_iff in H. tauto.
Qed.

Lemma strip_bom_app h rest :
  exists h', strip_bom (h ++ LF :: rest) = h' ++ LF :: rest /\
             (has_char LF h = false -> has_char LF h' = false).
Proof.
  destruct h as [|c h].
  - exists []. split; [reflexivity|auto].
  - cbn [app strip_bom]. destruct (c =? BOM)%N.
    + exists h. split; [reflexivity|]. cbn [has_char existsb].
      intros H. apply orb_false_iff in H. tauto.
    + exists (c :: h). split; [reflexivity|auto].
Qed.

(** X9.  The first line of the file is never read: two texts that differ
    in their first line only are imported alike, be that line a header or
    a line of data, and a text of one line gives no record. *)
Theorem parseCSVText_first_line uuid (h1 h2 rest : jsstring) :
  has_char LF h1 = false -> has_char LF h2 = false ->
  parseCSVText uuid (h1 ++ LF :: rest) = parseCSVText uuid (h2 ++ LF :: rest)
  /\ parseCSVText uuid h1 = Normal [].
Proof.
  intros H1 H2. unfold parseCSVText. split.
  - destruct (strip_bom_app h1 rest) as [h1' [-> E1]].
    destruct (strip_bom_app h2 rest) as [h2' [-> E2]].
    unfold split_lines at 1 2.
    destruct (split_lines_header h1' [] rest (E1 H1)) as [f1 ->].
    destruct (split_lines_header h2' [] rest (E2 H2)) as [f2 ->].
    reflexivity.
  - destruct (split_lines_single (strip_bom h1) [] (strip_bom_no_LF h1 H1))
      as [only E].
    unfold split_lines. rewrite E. reflexivity.
Qed.

Lemma parseCSVText_first_line_witness :
  parseCSVText uuid0 (lit "2025,3,14,x,food" ++ LF :: lit "2025,3,15,x,food")
  = parseCSVText uuid0 (lit "Year,Month,Day" ++ LF :: lit "2025,3,15,x,food")
  /\ parseCSVText uuid0 (lit "2025,3,14,x,food") = Normal [].
Proof.
  apply parseCSVText_first_line; reflexivity.
Defined.

(** *** Line ends *)

Lemma trimStart_snoc_ws b c :
  is_ws c = true ->
  trimStart (b ++ [c]) =
  match trimStart b with [] => [] | _ :: _ => trimStart b ++ [c] end.
Proof.
  intros Hc. induction b as [|x b IH]; simpl.
  - rewrite Hc. reflexivity.
  - destruct (is_ws x); [exact IH|reflexivity].
Qed.

Lemma trim_snoc_ws b c : is_ws c = true -> trim (b ++ [c]) = trim b.
Proof.
  intros Hc. unfold trim, trimEnd. rewrite (trimStart_snoc_ws b c Hc).
  destruct (trimStart b) as [|x r]; [reflexivity|].
  rewrite rev_app_distr. cbn [rev app trimStart]. rewrite Hc. reflexivity.
Qed.

Lemma process_line_trim uuid expenses a b :
  trim a = trim b ->
  process_line uuid expenses a = process_line uuid expenses b.
Proof. intros E. unfold process_line. rewrite E. reflexivity. Qed.

Lemma loop_trim uuid l1 l2 :
  Forall2 (fun a b => trim a = trim b) l1 l2 ->
  forall expenses, loop uuid expenses l1 = loop uuid expenses l2.
Proof.
  induction 1 as [|a b l1 l2 E _ IH]; intros expenses; [reflexivity|].
  cbn [loop]. rewrite (process_line_trim uuid expenses a b E).
  destruct (process_line uuid expenses b); [apply IH|reflexivity].
Qed.

Lemma to_crlf_cons c s :
  to_crlf (c :: s) = (if (c =? LF)%N then [CR; LF] else [c]) ++ to_crlf s.
Proof. reflexivity. Qed.

(** The head of a text with CR LF line ends is never a bare LF. *)
Lemma to_crlf_head s :
  match to_crlf s with
  | d :: _ => (d =? LF)%N = false
  | [] => True
  end.
Proof.
  destruct s as [|c s]; [exact I|]. rewrite to_crlf_cons.
  destruct (N.eqb_spec c LF); [reflexivity|].
  cbn [app]. apply N.eqb_neq. assumption.
Qed.

Lemma split_lines_crlf n : forall s cur,
  length s <= n ->
  Forall2 (fun a b => trim a = trim b)
    (split_lines_from cur (to_crlf s)) (split_lines_from cur s).
Proof.
  induction n as [|n IH]; intros s cur Hn.
  - destruct s; [|simpl in Hn; lia]. repeat constructor.
  - destruct s as [|c s]; [repeat constructor|].
    simpl in Hn. rewrite to_crlf_cons.
    destruct (N.eqb_spec c LF) as [->|Hc].
    + (* LF becomes CR LF: both cut here *)
      cbn [app split_lines_from].
      change (CR =? LF)%N with false. change (LF =? LF)%N with true.
      change (CR =? CR)%N with true. cbn [andb].
      constructor; [reflexivity|]. apply IH. lia.
    + cbn [app]. cbn [split_lines_from].
      apply N.eqb_neq in Hc. rewrite Hc.
      destruct s as [|d s].
      * cbn [to_crlf flat_map]. apply (IH [] (c :: cur)). simpl. lia.
      * simpl in Hn. destruct (N.eqb_spec d LF) as [->|Hd].
        -- (* the next character is LF *)
           rewrite to_crlf_cons. change (LF =? LF)%N with true.
           cbn [app]. change (CR =? LF)%N with false.
           rewrite andb_false_r, andb_true_r.
           destruct (N.eqb_spec c CR) as [->|Hcr].
           ++ (* CR LF already: the new line keeps one CR *)
              cbn [split_lines_from].
              change (CR =? LF)%N with false.
              change (CR =? CR)%N with true. change (LF =? LF)%N with true.
              cbn [andb]. constructor.
              ** cbn [rev]. apply trim_snoc_ws. reflexivity.
              ** apply IH. lia.
           ++ cbn [split_lines_from].
              change (CR =? LF)%N with false.
              change (CR =? CR)%N with true. change (LF =? LF)%N with true.
              change (LF =? LF)%N with true.
              cbn [andb]. constructor; [reflexivity|]. apply IH. lia.
        -- pose proof (to_crlf_head (d :: s)) as Hhead.
           destruct (to_crlf (d :: s)) as [|e r] eqn:E.
           ++ rewrite to_crlf_cons in E. apply N.eqb_neq in Hd.
              rewrite Hd in E. discriminate.
           ++ rewrite Hhead, !andb_false_r. rewrite <- E.
              apply (IH (d :: s) (c :: cur)). simpl. lia.
Qed.

Lemma strip_bom_to_crlf text :
  strip_bom (to_crlf text) = to_crlf (strip_bom text).
Proof.
  destruct text as [|c text]; [reflexivity|]. rewrite to_crlf_cons.
  destruct (N.eqb_spec c LF) as [->|Hc]; [reflexivity|].
  cbn [app strip_bom]. destruct (c =? BOM)%N; [reflexivity|].
  rewrite to_crlf_cons. apply N.eqb_neq in Hc. rewrite Hc. reflexivity.
Qed.

(** X10.  The import does not depend on the line ends nor on a byte
    order mark: the text with CR LF for every LF, and the text with a mark
    put before it, give what the text gives. *)
Theorem parseCSVText_line_ends uuid (text : jsstring) :
  parseCSVText uuid (to_crlf text) = parseCSVText uuid text /\
  (hd_error text <> Some BOM ->
   parseCSVText uuid (BOM :: text) = parseCSVText uuid text).
Proof.
  split.
  - unfold parseCSVText. rewrite strip_bom_to_crlf. apply loop_trim.
    pose proof (split_lines_crlf (strip_bom text) [] (Nat.le_refl _)) as H.
    unfold split_lines.
    destruct H as [|a b l1 l2 _ H]; [constructor|exact H].
  - intros Hb. unfold parseCSVText. cbn [strip_bom].
    change (BOM =? BOM)%N with true. cbn iota.
    destruct text as [|c text]; [reflexivity|].
    cbn [strip_bom]. destruct (N.eqb_spec c BOM) as [->|_];
      [exfalso; apply Hb; reflexivity|reflexivity].
Qed.

Lemma parseCSVText_line_ends_witness :
  let text := lit "header" ++ [LF] ++ lit "2025,3,15,x,food,,,1200" in
  parseCSVText uuid0 (BOM :: to_crlf text) = parseCSVText uuid0 text.
Proof.
  intros text.
  destruct (parseCSVText_line_ends uuid0 text) as [Hcrlf _].
  destruct (parseCSVText_line_ends uuid0 (to_crlf text)) as [_ Hbom].
  rewrite Hbom; [exact Hcrlf|]. vm_compute. discriminate.
Defined.

End Lines.

(* ================================================================= *)
(** ** Lists by date *)

Section ByDate.

Import Agg Spec View Notions.

Variable sort : forall A, (A -> A -> Number) -> list A -> list A.
Variable timeValue : jsstring -> Number.
Hypothesis sort_ok : SortImpl sort.

Arguments sort : clear implicits.

Lemma sort_permutes {A} (cmp : A -> A -> Number) l :
  Permutation l (sort A cmp l).
Proof. apply (sort_perm sort_ok). Qed.

Lemma dateCompare_signs a b :
  dated timeValue a -> dated timeValue b ->
  gt0 (dateCompare timeValue a b) = negb (newer timeValue a b) /\
  lt0 (dateCompare timeValue a b) = negb (newer timeValue b a).
Proof.
  intros Ha Hb. unfold dateCompare, newer.
  split; [apply gt0_nsub | apply lt0_nsub]; assumption.
Qed.

Lemma newer_total a b :
  dated timeValue a -> dated timeValue b ->
  newer timeValue a b = true \/ newer timeValue b a = true.
Proof.
  intros Ha Hb. unfold newer.
  destruct (nleb_total (timeValue (Tx.date a)) (timeValue (Tx.date b)) Ha Hb);
    auto.
Qed.

Lemma newer_trans a b c :
  dated timeValue a -> dated timeValue b -> dated timeValue c ->
  newer timeValue a b = true -> newer timeValue b c = true ->
  newer timeValue a c = true.
Proof.
  intros Ha Hb Hc H1 H2. unfold newer in *.
  apply (nleb_trans _ (timeValue (Tx.date b)) _ Hb H2 H1).
Qed.

(** Any conforming sort puts dated records newest first. *)
Lemma sort_by_date l :
  Forall (dated timeValue) l ->
  StronglySorted (fun a b => newer timeValue a b = true)
    (sort _ (dateCompare timeValue) l).
Proof.
  intros Hl. rewrite (sort_consistent sort_ok).
  - apply stable_sort_sorted with (P := dated timeValue);
      [ exact dateCompare_signs | exact newer_total | exact newer_trans
      | exact Hl ].
  - apply preorder_consistent
      with (leq := newer timeValue) (P := dated timeValue);
      [ exact dateCompare_signs | exact newer_total | exact newer_trans
      | exact Hl ].
Qed.

Lemma sort_nonempty {A} (cmp : A -> A -> Number) l :
  l <> [] -> sort A cmp l <> [].
Proof.
  intros Hl E. pose proof (@sort_permutes _ cmp l) as Hp.
  rewrite E in Hp. apply Permutation_sym, Permutation_nil in Hp. auto.
Qed.

(** X11.  [getLatestMonth] never throws; it gives the empty string for
    no data, and for data whose dates are all dates it gives the first
    seven characters of the date of a record that no other record is newer
    than. *)
Theorem getLatestMonth_latest (data : list Transaction) :
  (exists m, getLatestMonth sort timeValue data = Normal m) /\
  (data = [] -> getLatestMonth sort timeValue data = Normal []) /\
  (data <> [] -> Forall (dated timeValue) data ->
   exists r,
     In r data /\
     getLatestMonth sort timeValue data = Normal (firstn 7 (Tx.date r)) /\
     forall t, In t data -> newer timeValue r t = true).
Proof.
  unfold getLatestMonth. split; [|split].
  - destruct data as [|t data]; [eexists; reflexivity|].
    pose proof (@sort_nonempty _ (dateCompare timeValue) (t :: data)) as Hne.
    destruct (sort _ (dateCompare timeValue) (t :: data));
      [exfalso; apply Hne; [discriminate|reflexivity]|eexists; reflexivity].
  - intros ->. reflexivity.
  - intros Hne Hd. destruct data as [|t0 data]; [congruence|].
    pose proof (sort_by_date Hd) as Hs.
    pose proof (@sort_permutes _ (dateCompare timeValue) (t0 :: data)) as Hp.
    destruct (sort _ (dateCompare timeValue) (t0 :: data)) as [|r rest];
      [apply Permutation_sym, Permutation_nil in Hp; discriminate|].
    exists r. split; [|split; [reflexivity|]].
    + apply (Permutation_in r (Permutation_sym Hp)). left. reflexivity.
    + intros t Ht. apply (Permutation_in t Hp) in Ht.
      inversion Hs as [|? ? _ Hall]; subst.
      destruct Ht as [<-|Ht].
      * assert (Hr : dated timeValue r).
        { rewrite Forall_forall in Hd. apply Hd.
          apply (Permutation_in r (Permutation_sym Hp)). left. reflexivity. }
        destruct (newer_total Hr Hr); assumption.
      * rewrite Forall_forall in Hall. apply Hall, Ht.
Qed.

Variable toLowerCase : jsstring -> jsstring.

(** X12.  The filtered list holds the records of the store that pass the
    three filters, each as often as the store holds it, and nothing else;
    when their dates are all dates, the newest come first. *)
Theorem filterTransactions_matches (f : Filters)
    (transactions : list Transaction) :
  let r := filterTransactions sort timeValue toLowerCase f transactions in
  Permutation (filter (matches toLowerCase f) transactions) r /\
  (forall t, In t r <-> In t transactions /\ matches toLowerCase f t = true)
  /\
  (Forall (dated timeValue) (filter (matches toLowerCase f) transactions) ->
   StronglySorted (fun a b => newer timeValue a b = true) r).
Proof.
  cbv zeta. unfold filterTransactions.
  set (l := filter (matches toLowerCase f) transactions).
  pose proof (@sort_permutes _ (dateCompare timeValue) l) as Hp.
  split; [exact Hp|]. split.
  - intros t. rewrite <- (Permutation_in' eq_refl Hp).
    unfold l. apply filter_In.
  - apply sort_by_date.
Qed.

Lemma includes_nil s : includes s [] = true.
Proof. destruct s; reflexivity. Qed.

Lemma filter_all {A} (f : A -> bool) l :
  (forall x, In x l -> f x = true) -> filter f l = l.
Proof.
  induction l as [|x l IH]; intros H; [reflexivity|]. simpl.
  rewrite (H x) by (left; reflexivity). f_equal. apply IH.
  intros y Hy. apply H. right. exact Hy.
Qed.

(** X13.  With the kind set to all, nothing typed in the search box and
    no month picked, the table is built from the whole store, and the
    month [getLatestMonth] gives is the month of its first row; with a
    kind that is none of all, expense and income the table is empty. *)
Theorem filterTransactions_at_rest (f : Filters)
    (transactions : list Transaction) :
  toLowerCase [] = [] ->
  (type_filter f = ALL -> search_input f = [] -> month_picker f = [] ->
   let r := filterTransactions sort timeValue toLowerCase f transactions in
   Permutation transactions r /\
   getLatestMonth sort timeValue transactions =
     match transactions with
     | [] => Normal []
     | _ :: _ =>
         match r with
         | [] => Throw TypeError
         | first :: _ => Normal (firstn 7 (Tx.date first))
         end
     end) /\
  (type_filter f <> ALL -> type_filter f <> EXPENSE ->
   type_filter f <> INCOME ->
   filterTransactions sort timeValue toLowerCase f transactions = []).
Proof.
  intros Hlow. split.
  - intros Ht Hs Hm. cbv zeta. unfold filterTransactions.
    assert (Hall : filter (matches toLowerCase f) transactions = transactions).
    { apply filter_all. intros t _. unfold matches.
      rewrite Ht, Hs, Hm, Hlow, !includes_nil. reflexivity. }
    rewrite Hall. split; [apply sort_permutes|].
    unfold getLatestMonth. destruct transactions; reflexivity.
  - intros H1 H2 H3. unfold filterTransactions.
    assert (Hnone : filter (matches toLowerCase f) transactions = []).
    { induction transactions as [|t l IH]; [reflexivity|]. simpl.
      rewrite IH. unfold matches.
      apply str_eqb_neq in H1, H2, H3. rewrite H1, H2, H3. reflexivity. }
    rewrite Hnone.
    pose proof (@sort_permutes _ (dateCompare timeValue) []) as Hp.
    apply Permutation_nil in Hp. exact Hp.
Qed.

Lemma sorted_firstn_skipn {A} (R : A -> A -> Prop) l : forall n,
  StronglySorted R l ->
  forall a b, In a (firstn n l) -> In b (skipn n l) -> R a b.
Proof.
  induction l as [|x l IH]; intros n Hs a b Ha Hb.
  - destruct n; contradiction.
  - destruct n as [|n]; [contradiction|].
    inversion Hs as [|? ? Hs' Hall]; subst. simpl in Ha, Hb.
    destruct Ha as [<-|Ha].
    + rewrite Forall_forall in Hall. apply Hall.
      rewrite <- (firstn_skipn n l). apply in_or_app. right. exact Hb.
    + apply (IH n Hs' a b Ha Hb).
Qed.

(** X14.  The list of recent entries shows five records, or all when
    there are fewer, and when the dates are all dates none of the records
    left out is newer than one shown; the same holds of the fifty rows of
    the table. *)
Theorem recentList_newest (data : list Transaction) :
  Forall (dated timeValue) data ->
  let shown := recentList sort timeValue data in
  let rows := displayList (sort _ (dateCompare timeValue) data) in
  (exists rest,
     Permutation data (shown ++ rest) /\
     length shown = Nat.min 5 (length data) /\
     forall a b, In a shown -> In b rest -> newer timeValue a b = true) /\
  (exists rest,
     Permutation data (rows ++ rest) /\
     length rows = Nat.min 50 (length data) /\
     forall a b, In a rows -> In b rest -> newer timeValue a b = true).
Proof.
  intros Hd. cbv zeta. unfold recentList, displayList.
  pose proof (sort_by_date Hd) as Hs.
  pose proof (@sort_permutes _ (dateCompare timeValue) data) as Hp.
  set (l := sort _ (dateCompare timeValue) data) in *.
  assert (Hlen : length l = length data)
    by (symmetry; apply Permutation_length, Hp).
  split.
  - exists (skipn 5 l). rewrite firstn_skipn, length_firstn, Hlen.
    split; [exact Hp|]. split; [reflexivity|].
    apply sorted_firstn_skipn, Hs.
  - exists (skipn 50 l). rewrite firstn_skipn, length_firstn, Hlen.
    split; [exact Hp|]. split; [reflexivity|].
    apply sorted_firstn_skipn, Hs.
Qed.

End ByDate.

Section ByDateExamples.

Import Agg Spec View Notions.

Lemma march_dated :
  Forall (dated digits_clock) [lunch; salary; train].
Proof. repeat constructor. Qed.

Lemma getLatestMonth_latest_witness :
  exists r,
    In r [lunch; salary; train] /\
    getLatestMonth sorter digits_clock [lunch; salary; train]
      = Normal (firstn 7 (Tx.date r)) /\
    newer digits_clock r lunch = true.
Proof.
  destruct (@getLatestMonth_latest sorter digits_clock stable_sort_impl
              [lunch; salary; train]) as [_ [_ H]].
  destruct H as [r [Hin [Hm Hnew]]]; [discriminate|exact march_dated|].
  exists r. split; [exact Hin|]. split; [exact Hm|].
  apply Hnew. left. reflexivity.
Defined.

Lemma filterTransactions_matches_witness :
  let f := {| type_filter := EXPENSE; search_input := lit "foo";
              month_picker := lit "2025-03" |} in
  StronglySorted (fun a b => newer digits_clock a b = true)
    (filterTransactions sorter digits_clock (fun s => s) f
       [lunch; salary; train]).
Proof.
  intros f.
  destruct (@filterTransactions_matches sorter digits_clock stable_sort_impl
              (fun s => s) f [lunch; salary; train]) as [_ [_ H]].
  apply H. vm_compute. repeat constructor.
Defined.

Lemma filterTransactions_at_rest_witness :
  let f := {| type_filter := ALL; search_input := [];
              month_picker := [] |} in
  Permutation [lunch; salary; train]
    (filterTransactions sorter digits_clock (fun s => s) f
       [lunch; salary; train]).
Proof.
  intros f.
  destruct (@filterTransactions_at_rest sorter digits_clock stable_sort_impl
              (fun s => s) f [lunch; salary; train] eq_refl) as [H _].
  apply (H eq_refl eq_refl eq_refl).
Defined.

Lemma recentList_newest_witness :
  exists rest,
    Permutation [lunch; salary; train]
      (recentList sorter digits_clock [lunch; salary; train] ++ rest) /\
    length (recentList sorter digits_clock [lunch; salary; train]) = 3.
Proof.
  destruct (@recentList_newest sorter digits_clock stable_sort_impl
              [lunch; salary; train] march_dated)
    as [[rest [Hp [Hl _]]] _].
  exists rest. split; [exact Hp|exact Hl].
Defined.

End ByDateExamples.

(* ================================================================= *)
(** ** The totals of the days *)

Section Days.

Import Agg Spec Calendar Notions.
Open Scope Z_scope.

Lemma key_eqb_eq a b : key_eqb a b = true <-> a = b.
Proof.
  destruct a as [x|], b as [y|]; simpl; try (split; congruence).
  destruct (Number_eq_dec x y); split; congruence.
Qed.

Lemma key_eqb_refl a : key_eqb a a = true.
Proof. apply key_eqb_eq. reflexivity. Qed.

Lemma get_app_absent o d v :
  get o d = None ->
  forall d', get (o ++ [(d, v)]) d' =
             if key_eqb d d' then Some v else get o d'.
Proof.
  intros Hn d'. induction o as [|[k w] o IH]; simpl in *.
  - reflexivity.
  - destruct (key_eqb k d) eqn:Ek; [discriminate|].
    destruct (key_eqb k d') eqn:Ek'.
    + destruct (key_eqb d d') eqn:Ed; [|reflexivity].
      apply key_eqb_eq in Ek', Ed. subst. rewrite key_eqb_refl in Ek.
      discriminate.
    + apply IH, Hn.
Qed.

Lemma get_absent_keys o d : get o d = None -> ~ In d (map fst o).
Proof.
  induction o as [|[k w] o IH]; simpl; [tauto|].
  destruct (key_eqb k d) eqn:Ek; [discriminate|].
  intros Hn [E|Hin]; [|exact (IH Hn Hin)].
  subst. rewrite key_eqb_refl in Ek. discriminate.
Qed.

Lemma update_keys o d f : map fst (update o d f) = map fst o.
Proof.
  induction o as [|[k w] o IH]; simpl; [reflexivity|].
  destruct (key_eqb k d); simpl; [reflexivity|]. rewrite IH. reflexivity.
Qed.

Lemma get_update o d f : forall d',
  get (update o d f) d' =
  if key_eqb d d' then option_map f (get o d) else get o d'.
Proof.
  intros d'. induction o as [|[k w] o IH]; simpl.
  - destruct (key_eqb d d'); reflexivity.
  - destruct (key_eqb k d) eqn:Ek; simpl.
    + apply key_eqb_eq in Ek. subst k.
      destruct (key_eqb d d'); reflexivity.
    + destruct (key_eqb k d') eqn:Ek'; [|exact IH].
      destruct (key_eqb d d') eqn:Ed; [|reflexivity].
      apply key_eqb_eq in Ek', Ed. subst. rewrite key_eqb_refl in Ek.
      discriminate.
Qed.

(** How a change of one entry moves the sum of a column. *)
Lemma update_column (p : DayTotals -> Number) o d f v :
  get o d = Some v ->
  let column := fun o : Daily => map (fun e => p (snd e)) o in
  zsum (column (update o d f)) =
    zsum (column o) - zval (p v) + zval (p (f v)) /\
  total_magnitude (column (update o d f)) =
    total_magnitude (column o) - magnitude (p v) + magnitude (p (f v)) /\
  magnitude (p v) <= total_magnitude (column o).
Proof.
  cbv zeta. induction o as [|[k w] o IH]; simpl; [discriminate|].
  destruct (key_eqb k d) eqn:Ek; simpl.
  - intros [= ->].
    pose proof (total_magnitude_nonneg (map (fun e => p (snd e)) o)).
    repeat split; lia.
  - intros Hg. destruct (IH Hg) as [H1 [H2 H3]].
    pose proof (magnitude_nonneg (p w)).
    rewrite H1, H2. repeat split; lia.
Qed.

(** One record: the keys, the two columns and the entries after it. *)
Lemma step_spec (dd : Daily) (t : Transaction) :
  total_magnitude (incomes dd) + total_magnitude (expenses dd)
    + magnitude (Tx.amount t) < 2 ^ 53 ->
  NoDup (map fst dd) ->
  let out := step dd t in
  NoDup (map fst out) /\
  total_magnitude (incomes out) + total_magnitude (expenses out) <=
    total_magnitude (incomes dd) + total_magnitude (expenses dd)
      + magnitude (Tx.amount t) /\
  zsum (incomes out) =
    zsum (incomes dd)
      + (if type_is INCOME t then zval (Tx.amount t) else 0) /\
  zsum (expenses out) =
    zsum (expenses dd)
      + (if type_is INCOME t then 0
         else if type_is EXPENSE t then zval (Tx.amount t) else 0) /\
  forall d, get out d = bump d (get dd d) t.
Proof.
  intros Hsize Hnd. cbv zeta.
  pose proof (total_magnitude_nonneg (incomes dd)) as Pi.
  pose proof (total_magnitude_nonneg (expenses dd)) as Pe.
  pose proof (magnitude_nonneg (Tx.amount t)) as Pa.
  destruct (magnitude_small (Tx.amount t)) as [Ea Ha]; [lia|].
  set (z := zval (Tx.amount t)) in *.
  unfold step.
  set (d0 := Tx.day t).
  (* the table once the day has its entry *)
  set (dd1 := match get dd d0 with
              | Some _ => dd
              | None => dd ++ [(d0, {| income := Fin 0; expense := Fin 0 |})]
              end).
  set (v := match get dd d0 with Some v => v | None => no_totals end).
  assert (Hget1 : get dd1 d0 = Some v).
  { unfold dd1, v. destruct (get dd d0) eqn:E; [exact E|].
    rewrite (get_app_absent _ _ _ E), key_eqb_refl. reflexivity. }
  assert (Hother : forall d, key_eqb d0 d = false -> get dd1 d = get dd d).
  { intros d Hd. unfold dd1. destruct (get dd d0) eqn:E; [reflexivity|].
    rewrite (get_app_absent _ _ _ E), Hd. reflexivity. }
  assert (Hnd1 : NoDup (map fst dd1)).
  { unfold dd1. destruct (get dd d0) eqn:E; [exact Hnd|].
    rewrite map_app. apply NoDup_app; [exact Hnd|repeat constructor; simpl; tauto|].
    intros a Ha' [<-|[]]. exact (get_absent_keys _ _ E Ha'). }
  assert (Hcols : zsum (incomes dd1) = zsum (incomes dd) /\
                  zsum (expenses dd1) = zsum (expenses dd) /\
                  total_magnitude (incomes dd1) = total_magnitude (incomes dd) /\
                  total_magnitude (expenses dd1) = total_magnitude (expenses dd)).
  { unfold dd1. destruct (get dd d0); [repeat split; reflexivity|].
    unfold incomes, expenses. rewrite !map_app, !zsum_app, !total_magnitude_app.
    simpl. repeat split; lia. }
  destruct Hcols as [Zi [Ze [Mi Me]]].
  destruct (update_column income dd1 d0 (fun x => x) Hget1) as [_ [_ Bi]].
  destruct (update_column expense dd1 d0 (fun x => x) Hget1) as [_ [_ Be]].
  fold (incomes dd1) in Bi. fold (expenses dd1) in Be.
  destruct (magnitude_small (income v)) as [Ei Hi]; [lia|].
  destruct (magnitude_small (expense v)) as [Ee He]; [lia|].
  assert (Hday : forall d, day_is d t = key_eqb d0 d) by reflexivity.
  unfold bump, add_to. 
  destruct (type_is INCOME t) eqn:Ti; [|destruct (type_is EXPENSE t) eqn:Te].
  - (* an income *)
    set (f := fun v0 : DayTotals =>
                {| income := nadd (income v0) (Tx.amount t);
                   expense := expense v0 |}).
    assert (Ef : f v = {| income := Fin (zval (income v) + z);
                          expense := expense v |}).
    { unfold f. rewrite Ea, Ei. cbn [nadd zval]. rewrite F_small by lia.
      reflexivity. }
    destruct (update_column income dd1 d0 f Hget1) as [Si [Ti' _]].
    destruct (update_column expense dd1 d0 f Hget1) as [Se [Te' _]].
    fold (incomes (update dd1 d0 f)) in Si, Ti'.
    fold (expenses (update dd1 d0 f)) in Se, Te'.
    fold (incomes dd1) in Si, Ti'. fold (expenses dd1) in Se, Te'.
    rewrite Ef in Si, Ti', Se, Te'. cbn [income expense zval magnitude] in *.
    rewrite update_keys. split; [exact Hnd1|].
    split; [lia|]. split; [lia|]. split; [lia|].
    intros d. rewrite get_update, Hget1, Hday. cbn [option_map]. rewrite Ef.
    destruct (key_eqb d0 d) eqn:Ed; [|apply Hother, Ed].
    apply key_eqb_eq in Ed. subst d. reflexivity.
  - (* an expense *)
    set (f := fun v0 : DayTotals =>
                {| income := income v0;
                   expense := nadd (expense v0) (Tx.amount t) |}).
    assert (Ef : f v = {| income := income v;
                          expense := Fin (zval (expense v) + z) |}).
    { unfold f. rewrite Ea, Ee. cbn [nadd zval]. rewrite F_small by lia.
      reflexivity. }
    destruct (update_column income dd1 d0 f Hget1) as [Si [Ti' _]].
    destruct (update_column expense dd1 d0 f Hget1) as [Se [Te' _]].
    fold (incomes (update dd1 d0 f)) in Si, Ti'.
    fold (expenses (update dd1 d0 f)) in Se, Te'.
    fold (incomes dd1) in Si, Ti'. fold (expenses dd1) in Se, Te'.
    rewrite Ef in Si, Ti', Se, Te'. cbn [income expense zval magnitude] in *.
    rewrite update_keys. split; [exact Hnd1|].
    split; [lia|]. split; [lia|]. split; [lia|].
    intros d. rewrite get_update, Hget1, Hday. cbn [option_map]. rewrite Ef.
    destruct (key_eqb d0 d) eqn:Ed; [|apply Hother, Ed].
    apply key_eqb_eq in Ed. subst d. reflexivity.
  - (* another kind: the day gets its entry and no amount *)
    split; [exact Hnd1|]. split; [lia|]. split; [lia|]. split; [lia|].
    intros d. rewrite Hday.
    destruct (key_eqb d0 d) eqn:Ed; [|apply Hother, Ed].
    apply key_eqb_eq in Ed. subst d. exact Hget1.
Qed.

Lemma one_kind t : type_is INCOME t = true -> type_is EXPENSE t = false.
Proof.
  unfold type_is. destruct (Tx.type t) as [k|]; simpl; [|discriminate].
  intros H. apply str_eqb_eq in H. subst k. reflexivity.
Qed.

Lemma zsum_cons a l : zsum (a :: l) = zval a + zsum l.
Proof. reflexivity. Qed.

Lemma total_magnitude_cons a l :
  total_magnitude (a :: l) = magnitude a + total_magnitude l.
Proof. reflexivity. Qed.

Lemma fold_step_spec rest : forall dd : Daily,
  total_magnitude (incomes dd) + total_magnitude (expenses dd)
    + total_magnitude (map Tx.amount rest) < 2 ^ 53 ->
  NoDup (map fst dd) ->
  let out := fold_left step rest dd in
  NoDup (map fst out) /\
  total_magnitude (incomes out) + total_magnitude (expenses out) <=
    total_magnitude (incomes dd) + total_magnitude (expenses dd)
      + total_magnitude (map Tx.amount rest) /\
  zsum (incomes out) =
    zsum (incomes dd) + zsum (map Tx.amount (filter (type_is INCOME) rest)) /\
  zsum (expenses out) =
    zsum (expenses dd) + zsum (map Tx.amount (filter (type_is EXPENSE) rest)) /\
  forall d, get out d = fold_left (bump d) rest (get dd d).
Proof.
  induction rest as [|t rest IH]; intros dd Hsize Hnd; cbv zeta.
  - cbn [fold_left map filter] in *.
    change (total_magnitude []) with 0 in *. change (zsum []) with 0.
    split; [exact Hnd|]. split; [lia|]. split; [lia|]. split; [lia|].
    reflexivity.
  - cbn [fold_left map] in *. rewrite total_magnitude_cons in *.
    pose proof (total_magnitude_nonneg (map Tx.amount rest)) as Pr.
    destruct (step_spec dd t) as [N1 [M1 [I1 [E1 G1]]]]; [lia|exact Hnd|].
    destruct (IH (step dd t)) as [N2 [M2 [I2 [E2 G2]]]]; [lia|exact N1|].
    split; [exact N2|]. split; [lia|].
    rewrite I2, E2, I1, E1. cbn [filter].
    destruct (type_is INCOME t) eqn:Ti.
    + rewrite (one_kind t Ti). cbn [map]; rewrite ?zsum_cons.
      split; [lia|]. split; [lia|].
      intros d. rewrite G2, G1. reflexivity.
    + destruct (type_is EXPENSE t); cbn [map]; rewrite ?zsum_cons;
        (split; [lia|]; split; [lia|]);
        intros d; rewrite G2, G1; reflexivity.
Qed.

Lemma fold_bump_some d rest : forall v x y,
  income v = Fin x -> expense v = Fin y ->
  let day := filter (day_is d) rest in
  fold_left (bump d) rest (Some v) =
  Some {| income :=
            Fin (x + zsum (map Tx.amount (filter (type_is INCOME) day)));
          expense :=
            Fin (y + zsum (map Tx.amount (filter (type_is EXPENSE) day))) |}.
Proof.
  induction rest as [|t rest IH]; intros [vi ve] x y Hi He; cbv zeta;
    cbn [income expense] in *; subst vi ve.
  - simpl. rewrite !Z.add_0_r. reflexivity.
  - cbn [fold_left filter]. unfold bump at 2.
    destruct (day_is d t) eqn:Ed; [|apply IH; reflexivity].
    unfold add_to. cbn [filter income expense zval].
    destruct (type_is INCOME t) eqn:Ti.
    + rewrite (one_kind t Ti).
      rewrite (IH _ (x + zval (Tx.amount t)) y) by reflexivity.
      cbn [map]; rewrite ?zsum_cons. f_equal; f_equal; f_equal; lia.
    + destruct (type_is EXPENSE t).
      * rewrite (IH _ x (y + zval (Tx.amount t))) by reflexivity.
        cbn [map]; rewrite ?zsum_cons. f_equal; f_equal; f_equal; lia.
      * apply IH; reflexivity.
Qed.

Lemma fold_bump_none d rest :
  let day := filter (day_is d) rest in
  fold_left (bump d) rest None =
  if existsb (day_is d) rest then
    Some {| income := Fin (zsum (map Tx.amount (filter (type_is INCOME) day)));
            expense :=
              Fin (zsum (map Tx.amount (filter (type_is EXPENSE) day))) |}
  else None.
Proof.
  cbv zeta. induction rest as [|t rest IH]; [reflexivity|].
  cbn [fold_left filter existsb]. unfold bump at 2.
  destruct (day_is d t) eqn:Ed; [|exact IH]. cbn [orb].
  unfold add_to, no_totals. cbn [income expense zval filter].
  destruct (type_is INCOME t) eqn:Ti.
  - rewrite (one_kind t Ti).
    rewrite (@fold_bump_some d rest _ (0 + zval (Tx.amount t)) 0)
      by reflexivity.
    cbn [map]; rewrite ?zsum_cons. f_equal; f_equal; f_equal; lia.
  - destruct (type_is EXPENSE t).
    + rewrite (@fold_bump_some d rest _ 0 (0 + zval (Tx.amount t)))
        by reflexivity.
      cbn [map]; rewrite ?zsum_cons. f_equal; f_equal; f_equal; lia.
    + rewrite (@fold_bump_some d rest _ 0 0) by reflexivity.
      reflexivity.
Qed.

(** The entry of a day, in exact arithmetic. *)
Lemma dailyData_get (transactions : list Transaction) (year month : Z) d :
  let monthData := currentMonthData transactions (monthStr year month) in
  total_magnitude (map Tx.amount monthData) < 2 ^ 53 ->
  let day := filter (day_is d) monthData in
  get (dailyData transactions year month) d =
  if existsb (day_is d) monthData then
    Some {| income := Fin (zsum (map Tx.amount (filter (type_is INCOME) day)));
            expense :=
              Fin (zsum (map Tx.amount (filter (type_is EXPENSE) day))) |}
  else None.
Proof.
  cbv zeta. intros Hsize. unfold dailyData.
  fold (currentMonthData transactions (monthStr year month)).
  set (data := currentMonthData transactions (monthStr year month)) in *.
  destruct (fold_step_spec data []) as [_ [_ [_ [_ G]]]];
    [simpl; lia|constructor|].
  rewrite G. cbn [get]. apply fold_bump_none.
Qed.

Lemma day_size (f : Transaction -> bool) d l :
  total_magnitude (map Tx.amount l) < 2 ^ 53 ->
  total_magnitude (map Tx.amount (filter f (filter (day_is d) l))) < 2 ^ 53.
Proof.
  intros H.
  eapply Z.le_lt_trans; [apply total_magnitude_filter|].
  eapply Z.le_lt_trans; [apply total_magnitude_filter|exact H].
Qed.

(** X15.  The calendar's table of days, for a month whose amounts stay
    below [2^53] in total size: every day has at most one entry; a day has
    an entry exactly when the month has a record of that day, and the entry
    holds the sum of the day's incomes and the sum of the day's expenses;
    over the days the incomes add up to the month's income of the dashboard
    and the expenses to its expense. *)
Theorem dailyData_totals (transactions : list Transaction) (year month : Z) :
  let monthData := currentMonthData transactions (monthStr year month) in
  total_magnitude (map Tx.amount monthData) < 2 ^ 53 ->
  let dd := dailyData transactions year month in
  let totals := monthTotals transactions (monthStr year month) in
  NoDup (map fst dd) /\
  (forall d,
     get dd d =
     if existsb (day_is d) monthData then
       Some {| income :=
                 sum_amount
                   (filter (type_is INCOME) (filter (day_is d) monthData));
               expense :=
                 sum_amount
                   (filter (type_is EXPENSE) (filter (day_is d) monthData)) |}
     else None) /\
  sum_values (incomes dd) = Agg.income totals /\
  sum_values (expenses dd) = Agg.expense totals.
Proof.
  cbv zeta. intros Hsize.
  unfold dailyData, monthTotals. cbn [Agg.income Agg.expense].
  fold (currentMonthData transactions (monthStr year month)).
  set (data := currentMonthData transactions (monthStr year month)) in *.
  destruct (fold_step_spec data []) as [N [M [I [E G]]]];
    [simpl; lia|constructor|].
  simpl in M, I, E.
  pose proof (total_magnitude_nonneg (incomes (fold_left step data []))).
  pose proof (total_magnitude_nonneg (expenses (fold_left step data []))).
  split; [exact N|]. split; [|split].
  - intros d. rewrite G. cbn [get]. rewrite fold_bump_none.
    destruct (existsb (day_is d) data); [|reflexivity].
    rewrite !sum_amount_exact by (apply day_size, Hsize). reflexivity.
  - rewrite sum_values_exact by lia. rewrite I.
    rewrite sum_amount_exact; [reflexivity|].
    eapply Z.le_lt_trans; [apply total_magnitude_filter|exact Hsize].
  - rewrite sum_values_exact by lia. rewrite E.
    rewrite sum_amount_exact; [reflexivity|].
    eapply Z.le_lt_trans; [apply total_magnitude_filter|exact Hsize].
Qed.

Lemma dailyData_totals_witness :
  let dd := dailyData [lunch; salary; train] 2025 2 in
  total_magnitude
    (map Tx.amount
       (currentMonthData [lunch; salary; train] (monthStr 2025 2))) < 2 ^ 53 /\
  get dd (Some (Fin 15)) = Some {| income := Fin 0; expense := Fin 1680 |} /\
  get dd (Some (Fin 16)) = Some {| income := Fin 300000; expense := Fin 0 |} /\
  get dd (Some (Fin 17)) = None /\
  sum_values (incomes dd) = Fin 300000 /\
  sum_values (expenses dd) = Fin 1680.
Proof.
  cbv zeta.
  assert (Hsize : total_magnitude
            (map Tx.amount
               (currentMonthData [lunch; salary; train] (monthStr 2025 2)))
            < 2 ^ 53) by (vm_compute; reflexivity).
  destruct (dailyData_totals [lunch; salary; train] 2025 2 Hsize)
    as [_ [Hget [Hi He]]].
  split; [exact Hsize|].
  rewrite !Hget, Hi, He. vm_compute. repeat split; reflexivity.
Defined.

(** A sum of amounts none of which is negative is positive exactly when
    one of them is. *)
Lemma zsum_positive (l : list Transaction) :
  total_magnitude (map Tx.amount l) < 2 ^ 53 ->
  Forall (fun t => ge0 (Tx.amount t) = true) l ->
  0 <= zsum (map Tx.amount l) /\
  (0 < zsum (map Tx.amount l) <->
   exists t, In t l /\ gt0 (Tx.amount t) = true).
Proof.
  induction l as [|t l IH]; intros Hsize Hpos.
  - split; [simpl; lia|]. split; [simpl; lia|intros [t [[] _]]].
  - cbn [map] in *. rewrite total_magnitude_cons in Hsize.
    rewrite zsum_cons.
    pose proof (total_magnitude_nonneg (map Tx.amount l)) as Pl.
    pose proof (magnitude_nonneg (Tx.amount t)) as Pt.
    inversion Hpos as [|? ? Ht Hl]; subst.
    destruct (IH ltac:(lia) Hl) as [H0 Hiff].
    destruct (magnitude_small (Tx.amount t)) as [Ea _]; [lia|].
    rewrite Ea in Ht. cbn [ge0] in Ht. apply Z.leb_le in Ht.
    split; [lia|]. split.
    + intros Hsum. destruct (Z.eq_dec (zval (Tx.amount t)) 0) as [E|E].
      * destruct Hiff as [Hex _]. destruct Hex as [u [Hu Hg]]; [lia|].
        exists u. split; [right; exact Hu|exact Hg].
      * exists t. split; [left; reflexivity|].
        rewrite Ea. cbn [gt0]. apply Z.ltb_lt. lia.
    + intros [u [[<-|Hu] Hg]].
      * rewrite Ea in Hg. cbn [gt0] in Hg. apply Z.ltb_lt in Hg. lia.
      * assert (0 < zsum (map Tx.amount l)) by (apply Hiff; eauto). lia.
Qed.

(** One total of a cell: shown exactly when a record of the day and of
    the kind has a positive amount. *)
Lemma total_shown (kind : jsstring) (data : list Transaction) d :
  total_magnitude (map Tx.amount data) < 2 ^ 53 ->
  Forall (fun t => ge0 (Tx.amount t) = true) data ->
  gt0 (Fin (zsum (map Tx.amount
                    (filter (type_is kind) (filter (day_is d) data)))))
    = true <->
  exists t, In t data /\ Tx.day t = d /\ type_is kind t = true /\
            gt0 (Tx.amount t) = true.
Proof.
  intros Hsize Hpos. cbn [gt0]. rewrite Z.ltb_lt.
  destruct (@zsum_positive (filter (type_is kind) (filter (day_is d) data)))
    as [_ Hiff].
  - apply day_size, Hsize.
  - apply Forall_filter, Forall_filter, Hpos.
  - rewrite Hiff. split.
    + intros [t [Hin Hg]]. apply filter_In in Hin. destruct Hin as [Hin Hk].
      apply filter_In in Hin. destruct Hin as [Hin Hd].
      apply key_eqb_eq in Hd. exists t. auto.
    + intros [t [Hin [Hd [Hk Hg]]]]. exists t. split; [|exact Hg].
      apply filter_In. split; [|exact Hk].
      apply filter_In. split; [exact Hin|].
      apply key_eqb_eq. exact Hd.
Qed.

(** X19.  The cells of the calendar, for a month whose amounts are not
    negative and stay below [2^53] in total size: the cell of a day shows
    an income exactly when the month has an income record of that day with
    a positive amount, and an expense exactly when it has such an expense
    record. *)
Theorem cellTotals_shown (transactions : list Transaction)
    (year month day : Z) :
  let monthData := currentMonthData transactions (monthStr year month) in
  total_magnitude (map Tx.amount monthData) < 2 ^ 53 ->
  Forall (fun t => ge0 (Tx.amount t) = true) monthData ->
  let cell := cellTotals (dailyData transactions year month) day in
  let has kind :=
    exists t, In t monthData /\ Tx.day t = Some (Fin day) /\
              type_is kind t = true /\ gt0 (Tx.amount t) = true in
  (fst cell <> None <-> has INCOME) /\ (snd cell <> None <-> has EXPENSE).
Proof.
  cbv zeta. intros Hsize Hpos. unfold cellTotals.
  rewrite dailyData_get by exact Hsize.
  set (data := currentMonthData transactions (monthStr year month)) in *.
  set (d := Some (Fin day)).
  pose proof (total_shown INCOME d Hsize Hpos) as Hi.
  pose proof (total_shown EXPENSE d Hsize Hpos) as He.
  destruct (existsb (day_is d) data) eqn:Ex.
  - cbn [income expense]. rewrite <- Hi, <- He.
    split.
    + destruct (gt0 _); cbn [fst]; split; congruence.
    + destruct (gt0 (Fin (zsum (map Tx.amount
                 (filter (type_is EXPENSE) (filter (day_is d) data))))));
        cbn [snd]; split; congruence.
  - assert (Hnone : forall kind,
              ~ exists t, In t data /\ Tx.day t = d /\
                          type_is kind t = true /\ gt0 (Tx.amount t) = true).
    { intros kind [t [Hin [Hd _]]].
      assert (existsb (day_is d) data = true); [|congruence].
      apply existsb_exists. exists t. split; [exact Hin|].
      apply key_eqb_eq. exact Hd. }
    cbn [fst snd]. split; split; intros H;
      solve [congruence | exfalso; exact (Hnone _ H)].
Qed.

Lemma cellTotals_shown_witness :
  let data := [lunch; salary; train] in
  Forall (fun t => ge0 (Tx.amount t) = true)
    (currentMonthData data (monthStr 2025 2)) /\
  cellTotals (dailyData data 2025 2) 15 = (None, Some (Fin 1680)) /\
  (fst (cellTotals (dailyData data 2025 2) 15) <> None <->
   exists t, In t (currentMonthData data (monthStr 2025 2)) /\
             Tx.day t = Some (Fin 15) /\
             type_is INCOME t = true /\ gt0 (Tx.amount t) = true).
Proof.
  cbv zeta.
  assert (Hsize : total_magnitude
            (map Tx.amount
               (currentMonthData [lunch; salary; train] (monthStr 2025 2)))
            < 2 ^ 53) by (vm_compute; reflexivity).
  assert (Hpos : Forall (fun t => ge0 (Tx.amount t) = true)
            (currentMonthData [lunch; salary; train] (monthStr 2025 2))).
  { apply Forall_forall. intros t Hin. apply filter_In in Hin.
    destruct Hin as [[<-|[<-|[<-|[]]]] _]; reflexivity. }
  split; [exact Hpos|]. split; [vm_compute; reflexivity|].
  exact (proj1 (cellTotals_shown [lunch; salary; train] 2025 2 15
                  Hsize Hpos)).
Defined.

End Days.

(* ================================================================= *)
(** ** The lock screen *)

Section LockScreen.

Import Lock Notions.

Ltac lock_cases :=
  unfold step, keyDown, lockButton, startPinSetup, handlePinComplete,
    addPinDigit, removePinDigit, resetPinState;
  cbn [pinCode isSettingUp tempPin zaim_pin display truthy negb];
  repeat match goal with
         | |- context [match ?x with _ => _ end] =>
             lazymatch x with
             | context [match _ with _ => _ end] => fail
             | _ => destruct x eqn:?
             end
         end;
  cbn [pinCode isSettingUp tempPin zaim_pin display] in *.

Lemma run_snoc s es e : run s (es ++ [e]) = step (run s es) e.
Proof. unfold run. rewrite fold_left_app. reflexivity. Qed.

Lemma run_cons s e es : run s (e :: es) = run (step s e) es.
Proof. reflexivity. Qed.

Lemma truthy_some p : p <> [] -> truthy (Some p) = true.
Proof. destruct p; [congruence|reflexivity]. Qed.

(** With a PIN stored and no setup under way, no event changes either. *)
Lemma step_stored s e p :
  zaim_pin s = Some p -> p <> [] -> isSettingUp s = false ->
  zaim_pin (step s e) = Some p /\ isSettingUp (step s e) = false.
Proof.
  intros Hz Hp Hs. destruct p as [|c p]; [congruence|clear Hp].
  destruct s as [pc su tp zp dp]. cbn [zaim_pin isSettingUp] in *. subst.
  destruct e as [[num|]| |key| | |]; lock_cases;
    try (split; reflexivity); try discriminate; try (exfalso; congruence).
Qed.

Lemma run_stored es : forall s p,
  zaim_pin s = Some p -> p <> [] -> isSettingUp s = false ->
  zaim_pin (run s es) = Some p /\ isSettingUp (run s es) = false.
Proof.
  induction es as [|e es IH]; intros s p Hz Hp Hs; [split; assumption|].
  rewrite run_cons. destruct (step_stored s e Hz Hp Hs) as [Hz' Hs'].
  apply IH; assumption.
Qed.

(** The screen is hidden after an event only if it was hidden before and
    the event is not the lock button, or the event is the check of a code
    equal to the stored PIN. *)
Lemma step_hidden s e p :
  zaim_pin s = Some p -> p <> [] -> isSettingUp s = false ->
  display (step s e) = Hidden ->
  (e = PinTimer /\ pinCode s = p) \/ (display s = Hidden /\ e <> LockButton).
Proof.
  intros Hz Hp Hs. destruct p as [|c p]; [congruence|clear Hp].
  destruct s as [pc su tp zp dp].
  cbn [zaim_pin isSettingUp pinCode display] in *. subst.
  destruct e as [[num|]| |key| | |]; lock_cases; intros Hd;
    try discriminate; try (exfalso; congruence);
    try (right; split; [assumption || reflexivity|discriminate]).
  left. split; [reflexivity|].
  match goal with
  | H : field_eqb _ _ = true |- _ => apply field_eqb_eq in H; congruence
  end.
Qed.

(** X16.  With a PIN stored and no setup under way, whatever happens the
    stored PIN stays as it is and no setup starts.  If the lock screen was
    shown and is hidden afterwards, then a check of the entered code took
    place at a moment when the code was the stored PIN, and the lock button
    was not clicked since; and a check of a code equal to the stored PIN
    hides the screen. *)
Theorem lock_opens_on_pin (s : State) (p : jsstring) (es : list Event) :
  zaim_pin s = Some p -> p <> [] -> isSettingUp s = false ->
  let s' := run s es in
  zaim_pin s' = Some p /\ isSettingUp s' = false /\
  (display s <> Hidden -> display s' = Hidden ->
   exists es1 es2,
     es = es1 ++ PinTimer :: es2 /\ pinCode (run s es1) = p /\
     ~ In LockButton es2) /\
  (pinCode s' = p -> display (step s' PinTimer) = Hidden).
Proof.
  intros Hz Hp Hs. cbv zeta.
  destruct (run_stored es s Hz Hp Hs) as [Hz' Hs'].
  split; [exact Hz'|]. split; [exact Hs'|]. split.
  - intros Hshown. clear Hz' Hs'.
    induction es as [|e es IH] using rev_ind; [intros Hd; contradiction|].
    rewrite run_snoc. intros Hd.
    destruct (run_stored es s Hz Hp Hs) as [Hz' Hs'].
    destruct (step_hidden _ _ Hz' Hp Hs' Hd) as [[-> Hcode]|[Hd' He]].
    + exists es, []. repeat split; [exact Hcode|]. intros [].
    + destruct (IH Hd') as [es1 [es2 [-> [Hcode Hno]]]].
      exists es1, (es2 ++ [e]). rewrite <- app_assoc. repeat split.
      * exact Hcode.
      * intros Hin. apply in_app_or in Hin. destruct Hin as [Hin|[E|[]]].
        -- exact (Hno Hin).
        -- exact (He E).
  - intros Hcode. cbn [step]. unfold handlePinComplete.
    rewrite Hs', Hz', Hcode.
    assert (E : field_eqb (Some p) (Some p) = true)
      by (apply field_eqb_eq; reflexivity).
    rewrite E. reflexivity.
Qed.

Lemma lock_opens_on_pin_witness :
  let s := init (Some (lit "1234")) in
  let es := LockButton :: keys_1234 ++ [PinTimer; KeyDown (lit "5")] in
  display s = Flex /\ display (run s es) = Hidden /\
  zaim_pin (run s es) = Some (lit "1234") /\
  exists es1 es2,
    es = es1 ++ PinTimer :: es2 /\ pinCode (run s es1) = lit "1234" /\
    ~ In LockButton es2.
Proof.
  cbv zeta.
  assert (Hz : zaim_pin (init (Some (lit "1234"))) = Some (lit "1234"))
    by reflexivity.
  assert (Hp : lit "1234" <> []) by discriminate.
  assert (Hs : isSettingUp (init (Some (lit "1234"))) = false)
    by reflexivity.
  destruct (@lock_opens_on_pin _ _
              (LockButton :: keys_1234 ++ [PinTimer; KeyDown (lit "5")])
              Hz Hp Hs) as [Hz' [_ [Hopen _]]].
  split; [reflexivity|]. split; [vm_compute; reflexivity|].
  split; [exact Hz'|].
  apply Hopen; [discriminate|vm_compute; reflexivity].
Defined.

Lemma removelast_le (A : Type) (l : list A) :
  length (removelast l) <= length l.
Proof.
  induction l as [|a [|b l] IH]; simpl in *; lia.
Qed.

Lemma step_length s e :
  length (pinCode s) <= 4 -> one_char e ->
  length (pinCode (step s e)) <= 4.
Proof.
  intros Hlen He. destruct s as [pc su tp zp dp]. cbn [pinCode] in *.
  pose proof (removelast_le pc) as Hr.
  assert (Hadd : forall d, length d = 1 -> (4 <=? length pc) = false ->
                           length (pc ++ d) <= 4).
  { intros d Hd Hlt. apply Nat.leb_gt in Hlt. rewrite length_app. lia. }
  destruct e as [[num|]| |key| | |]; cbn [one_char] in He; lock_cases;
    try assumption; try (simpl; lia); try (apply Hadd; auto).
  all: try (etransitivity; [apply removelast_le|]; try assumption;
            apply Hadd; auto).
Qed.

(** X17.  While every key of the pad gives one character, and every key
    of the keyboard that passes for a digit has a one-character name, the
    entered code never gets longer than four characters. *)
Theorem pinCode_at_most_four (s : State) (es : list Event) :
  length (pinCode s) <= 4 -> Forall one_char es ->
  length (pinCode (run s es)) <= 4.
Proof.
  revert s. induction es as [|e es IH]; intros s Hlen Hall; [exact Hlen|].
  inversion Hall as [|? ? He Hes]; subst.
  rewrite run_cons. apply IH; [apply step_length; assumption|exact Hes].
Qed.

Lemma pinCode_at_most_four_witness :
  let es := LockButton :: pad_1234 ++ keys_1234 ++ [DeleteClick] in
  Forall one_char es /\
  length (pinCode (run (init None) es)) <= 4 /\
  pinCode (run (init None) es) = lit "123".
Proof.
  cbv zeta.
  assert (Hall : Forall one_char
                   (LockButton :: pad_1234 ++ keys_1234 ++ [DeleteClick]))
    by (repeat constructor).
  split; [exact Hall|]. split; [|vm_compute; reflexivity].
  apply (@pinCode_at_most_four (init None) _); [simpl; lia|exact Hall].
Defined.

(** The code kept for confirmation changes only at a check, to the code
    entered then, or is cleared. *)
Lemma step_tempPin s e :
  tempPin (step s e) <> [] ->
  tempPin (step s e) = tempPin s \/
  (e = PinTimer /\ tempPin (step s e) = pinCode s).
Proof.
  destruct s as [pc su tp zp dp].
  destruct e as [[num|]| |key| | |]; lock_cases; intros Hne;
    try (left; reflexivity); try (exfalso; apply Hne; reflexivity).
  all: right; split; reflexivity.
Qed.

Lemma tempPin_entered s es :
  tempPin s = [] -> tempPin (run s es) <> [] ->
  exists es1 es2,
    es = es1 ++ PinTimer :: es2 /\ pinCode (run s es1) = tempPin (run s es).
Proof.
  intros H0. induction es as [|e es IH] using rev_ind.
  - intros Hne. exfalso. apply Hne. exact H0.
  - rewrite run_snoc. intros Hne.
    destruct (step_tempPin _ _ Hne) as [E|[-> E]].
    + rewrite E in Hne |- *. destruct (IH Hne) as [es1 [es2 [-> Hc]]].
      exists es1, (es2 ++ [e]). rewrite <- app_assoc. split; [reflexivity|].
      exact Hc.
    + exists es, []. split; [reflexivity|]. symmetry. exact E.
Qed.

(** The stored PIN changes only at a check during a setup, when the code
    entered is the code kept for confirmation. *)
Lemma step_zaim_pin s e :
  zaim_pin (step s e) = zaim_pin s \/
  (e = PinTimer /\ zaim_pin (step s e) = Some (pinCode s) /\
   tempPin s = pinCode s /\ tempPin s <> []).
Proof.
  destruct s as [pc su tp zp dp].
  destruct e as [[num|]| |key| | |]; lock_cases;
    try (left; reflexivity); simpl negb in *; try discriminate.
  all: right; split; [reflexivity|]; split; [reflexivity|].
  all: match goal with
       | H : str_eqb _ _ = true |- _ => apply str_eqb_eq in H
       end.
  all: split; [symmetry; assumption|discriminate].
Qed.

Lemma zaim_pin_confirmed s es q :
  zaim_pin s = None -> zaim_pin (run s es) = Some q ->
  exists es1 es2,
    es = es1 ++ PinTimer :: es2 /\ pinCode (run s es1) = q /\
    tempPin (run s es1) = q /\ q <> [].
Proof.
  intros H0. induction es as [|e es IH] using rev_ind.
  - intros Hq. cbn [run fold_left] in Hq. congruence.
  - rewrite run_snoc. intros Hq.
    destruct (step_zaim_pin (run s es) e) as [E|[-> [E [Et Hne]]]].
    + rewrite E in Hq. destruct (IH Hq) as [es1 [es2 [-> H]]].
      exists es1, (es2 ++ [e]). rewrite <- app_assoc. split; [reflexivity|].
      exact H.
    + exists es, []. rewrite E in Hq. injection Hq as <-.
      split; [reflexivity|]. split; [reflexivity|].
      split; [exact Et|]. rewrite <- Et. exact Hne.
Qed.

(** X18.  Setting a PIN: starting with no PIN stored and no code kept for
    confirmation, a PIN that gets stored is not empty and was the entered
    code at two checks, the first entry and its confirmation. *)
Theorem setup_stores_confirmed_pin (s : State) (es : list Event)
    (q : jsstring) :
  zaim_pin s = None -> tempPin s = [] ->
  zaim_pin (run s es) = Some q ->
  q <> [] /\
  exists first between rest,
    es = first ++ PinTimer :: between ++ PinTimer :: rest /\
    pinCode (run s first) = q /\
    pinCode (run s (first ++ PinTimer :: between)) = q.
Proof.
  intros Hz Ht Hq.
  destruct (zaim_pin_confirmed s es Hz Hq) as [es1 [rest [-> [Hc [Htq Hne]]]]].
  split; [exact Hne|].
  assert (Hne' : tempPin (run s es1) <> []) by (rewrite Htq; exact Hne).
  destruct (tempPin_entered s es1 Ht Hne') as [first [between [-> Hf]]].
  exists first, between, rest. rewrite <- app_assoc. cbn [app].
  split; [reflexivity|]. split; [|exact Hc].
  rewrite Hf. exact Htq.
Qed.

Lemma setup_stores_confirmed_pin_witness :
  let es := LockButton :: pad_1234 ++ PinTimer :: keys_1234 ++ [PinTimer] in
  zaim_pin (run (init None) es) = Some (lit "1234") /\
  display (run (init None) es) = Hidden /\
  exists first between rest,
    es = first ++ PinTimer :: between ++ PinTimer :: rest /\
    pinCode (run (init None) first) = lit "1234" /\
    pinCode (run (init None) (first ++ PinTimer :: between)) = lit "1234".
Proof.
  cbv zeta.
  assert (Hq : zaim_pin
                 (run (init None)
                    (LockButton :: pad_1234 ++ PinTimer :: keys_1234
                       ++ [PinTimer])) = Some (lit "1234"))
    by (vm_compute; reflexivity).
  split; [exact Hq|]. split; [vm_compute; reflexivity|].
  exact (proj2 (@setup_stores_confirmed_pin (init None) _ _
                  eq_refl eq_refl Hq)).
Defined.

End LockScreen.
